(** * Terminal Tutor: the state validation engine

    A shallow embedding of [src/engine/validator.ts] and
    [src/engine/executor.ts] and the properties of the engine that the
    specification states.

    Conventions of the embedding.
    - A JavaScript string is a [string]: a sequence of code units, here the
      code units U+0000..U+00FF (Latin-1).  On that range [toLowerCase] and
      the white space recognised by [trim] are the tables below.
    - A value of TypeScript type [string] that may be [undefined] at run time
      (the optional fields of a check descriptor, passed on with [!]) is an
      [option string].
    - [async] functions are computations in the monad [M]: they read the
      host (file system, subprocesses), may change it only through [execa],
      may throw, and print lines on the console.
    - The host is POSIX: [os.platform()] is not ['win32'] and [path] is
      [path.posix]. *)

From Stdlib Require Import Bool Arith List Ascii String ZArith Lia.
From Stdlib Require Import DecimalString.
From Stdlib Require Import Permutation.
Import ListNotations.
Open Scope string_scope.
Open Scope bool_scope.
Open Scope nat_scope.

Set Implicit Arguments.

(* ================================================================== *)
(** ** JavaScript strings *)
(* ================================================================== *)

Module Js.

Definition code (c : ascii) : nat := nat_of_ascii c.

Definition bslash : ascii := ascii_of_nat 92.
Definition slash : ascii := "/"%char.
Definition dot : ascii := "."%char.
Definition CR : ascii := ascii_of_nat 13.
Definition LF : ascii := ascii_of_nat 10.
Definition NUL : ascii := ascii_of_nat 0.
Definition dquote : ascii := ascii_of_nat 34.
Definition space : ascii := " "%char.
Definition star : ascii := "*"%char.

(** White space and line terminators of [String.prototype.trim] below
    U+0100: TAB, LF, VT, FF, CR, SP and NBSP. *)
Definition is_ws (c : ascii) : bool :=
  let n := code c in
  ((9 <=? n) && (n <=? 13)) || (n =? 32) || (n =? 160).

(** [String.prototype.toLowerCase] on one Latin-1 code unit: A-Z and the
    accented capitals U+00C0..U+00DE, the multiplication sign excepted. *)
Definition lower_char (c : ascii) : ascii :=
  let n := code c in
  if ((65 <=? n) && (n <=? 90))
     || ((192 <=? n) && (n <=? 222) && negb (n =? 215))
  then ascii_of_nat (n + 32) else c.

Fixpoint smap (f : ascii -> ascii) (s : string) : string :=
  match s with
  | EmptyString => EmptyString
  | String c r => String (f c) (smap f r)
  end.

Fixpoint sfilter (f : ascii -> bool) (s : string) : string :=
  match s with
  | EmptyString => EmptyString
  | String c r => if f c then String c (sfilter f r) else sfilter f r
  end.

Fixpoint sdrop_while (f : ascii -> bool) (s : string) : string :=
  match s with
  | EmptyString => EmptyString
  | String c r => if f c then sdrop_while f r else s
  end.

Fixpoint occurs (c : ascii) (s : string) : bool :=
  match s with
  | EmptyString => false
  | String d r => Ascii.eqb c d || occurs c r
  end.

Definition toLowerCase (s : string) : string := smap lower_char s.

Definition trimStart (s : string) : string := sdrop_while is_ws s.

Fixpoint trimEnd (s : string) : string :=
  match s with
  | EmptyString => EmptyString
  | String c r =>
      match trimEnd r with
      | EmptyString => if is_ws c then EmptyString else String c EmptyString
      | r' => String c r'
      end
  end.

Definition trim (s : string) : string := trimEnd (trimStart s).

(** [s.replace(/\\/g, '/')] *)
Definition replace_backslashes (s : string) : string :=
  smap (fun c => if Ascii.eqb c bslash then slash else c) s.

(** [s.replace(/\r/g, '')] *)
Definition remove_CRs (s : string) : string :=
  sfilter (fun c => negb (Ascii.eqb c CR)) s.

(** [s.replace(/^\.\/+/, '')]: the pattern is one dot and then a run of one
    or more slashes, anchored at the start; only the first match goes. *)
Definition strip_dot_slashes (s : string) : string :=
  match s with
  | String d (String sl r) =>
      if Ascii.eqb d dot && Ascii.eqb sl slash
      then sdrop_while (Ascii.eqb slash) r
      else s
  | _ => s
  end.

Definition starts_dot_slash (s : string) : bool :=
  match s with
  | String d (String sl _) => Ascii.eqb d dot && Ascii.eqb sl slash
  | _ => false
  end.

(** [s.replace('*', '')]: a string pattern replaces its first occurrence. *)
Fixpoint remove_first (c : ascii) (s : string) : string :=
  match s with
  | EmptyString => EmptyString
  | String d r => if Ascii.eqb c d then r else String d (remove_first c r)
  end.

(** [s.split(sep)] for a separator of one code unit; a string without
    separator, the empty one included, gives one piece. *)
Fixpoint split (sep : ascii) (s : string) : list string :=
  match s with
  | EmptyString => [EmptyString]
  | String c r =>
      if Ascii.eqb c sep then EmptyString :: split sep r
      else match split sep r with
           | p :: ps => String c p :: ps
           | [] => [String c EmptyString]
           end
  end.

(** [xs.join(sep)] *)
Fixpoint join (sep : string) (xs : list string) : string :=
  match xs with
  | [] => EmptyString
  | [x] => x
  | x :: rest => x ++ sep ++ join sep rest
  end.

(** [hay.includes(needle)] on strings *)
Fixpoint includes (hay needle : string) : bool :=
  String.prefix needle hay ||
  match hay with
  | EmptyString => false
  | String _ r => includes r needle
  end.

(** [xs.includes(x)] on arrays of strings *)
Definition mem (x : string) (xs : list string) : bool :=
  existsb (String.eqb x) xs.

(** truthiness of a string: [Boolean(s)] *)
Definition truthy (s : string) : bool := negb (String.eqb s EmptyString).

(** A template literal prints an absent value as [undefined]. *)
Definition show (v : option string) : string :=
  match v with Some s => s | None => "undefined" end.

Definition show_nat (n : nat) : string :=
  NilZero.string_of_uint (Nat.to_uint n).

Definition show_Z (z : Z) : string :=
  NilZero.string_of_int (Z.to_int z).

Definition hex_digit (n : nat) : ascii :=
  if n <? 10 then ascii_of_nat (48 + n) else ascii_of_nat (87 + n).

(** [JSON.stringify] of a string. *)
Fixpoint json_escape (s : string) : string :=
  match s with
  | EmptyString => EmptyString
  | String c r =>
      let n := code c in
      (if n =? 34 then String bslash (String dquote EmptyString)
       else if n =? 92 then String bslash (String bslash EmptyString)
       else if n =? 8 then String bslash "b"
       else if n =? 12 then String bslash "f"
       else if n =? 10 then String bslash "n"
       else if n =? 13 then String bslash "r"
       else if n =? 9 then String bslash "t"
       else if n <? 32 then
         String bslash ("u00" ++ String (hex_digit (n / 16))
                                   (String (hex_digit (n mod 16)) EmptyString))
       else String c EmptyString) ++ json_escape r
  end.

Definition JSON_stringify (s : string) : string :=
  String dquote (json_escape s ++ String dquote EmptyString).

End Js.

(* ================================================================== *)
(** ** Path normalizer ([validator.ts], [normalizeRel],
       [normalizeGitEntry]) *)
(* ================================================================== *)

Definition normalizeRel (p : string) : string :=
  Js.trim (Js.strip_dot_slashes (Js.replace_backslashes p)).

Definition normalizeGitEntry (p : string) : string :=
  normalizeRel (Js.remove_CRs p).

(* ================================================================== *)
(** ** Node's [path.posix]: [normalize], [join], [dirname], [basename] *)
(* ================================================================== *)

Module Path.

Definition is_slash (c : ascii) : bool := Ascii.eqb c Js.slash.

Fixpoint drop_while (f : ascii -> bool) (l : list ascii) : list ascii :=
  match l with
  | [] => []
  | c :: r => if f c then drop_while f r else l
  end.

Fixpoint take_while (f : ascii -> bool) (l : list ascii) : list ascii :=
  match l with
  | [] => []
  | c :: r => if f c then c :: take_while f r else []
  end.

(** [normalizeString]: the segments between slashes, kept on a stack whose
    head is the last segment.  Empty segments and [.] are skipped; [..] pops
    a segment other than [..], and is kept above the root when that is
    allowed. *)
Fixpoint resolve_segments (allowAboveRoot : bool) (segs : list string)
         (stack : list string) : list string :=
  match segs with
  | [] => stack
  | seg :: rest =>
      if String.eqb seg "" || String.eqb seg "." then
        resolve_segments allowAboveRoot rest stack
      else if String.eqb seg ".." then
        match stack with
        | top :: below =>
            if String.eqb top ".." then
              resolve_segments allowAboveRoot rest
                (if allowAboveRoot then ".." :: stack else stack)
            else resolve_segments allowAboveRoot rest below
        | [] =>
            resolve_segments allowAboveRoot rest
              (if allowAboveRoot then [".."] else [])
        end
      else resolve_segments allowAboveRoot rest (seg :: stack)
  end.

Definition normalizeString (path : string) (allowAboveRoot : bool) : string :=
  Js.join "/" (rev (resolve_segments allowAboveRoot (Js.split Js.slash path) [])).

Definition last_is_slash (path : string) : bool :=
  match rev (list_ascii_of_string path) with
  | c :: _ => is_slash c
  | [] => false
  end.

Definition normalize (path : string) : string :=
  match path with
  | EmptyString => "."
  | String c0 _ =>
      let isAbsolute := is_slash c0 in
      let trailingSeparator := last_is_slash path in
      let p := normalizeString path (negb isAbsolute) in
      match p with
      | EmptyString =>
          if isAbsolute then "/" else if trailingSeparator then "./" else "."
      | _ =>
          let p' := if trailingSeparator then p ++ "/" else p in
          if isAbsolute then "/" ++ p' else p'
      end
  end.

(** [path.join(a, b)] *)
Definition join (a b : string) : string :=
  match a, b with
  | EmptyString, EmptyString => "."
  | EmptyString, _ => normalize b
  | _, EmptyString => normalize a
  | _, _ => normalize (a ++ "/" ++ b)
  end.

(** [path.dirname]: the scan runs from the last index down to index 1. *)
Definition dirname (path : string) : string :=
  match path with
  | EmptyString => "."
  | String c0 rest =>
      let hasRoot := is_slash c0 in
      let after_trailing := drop_while is_slash (rev (list_ascii_of_string rest)) in
      match drop_while (fun c => negb (is_slash c)) after_trailing with
      | [] => if hasRoot then "/" else "."
      | _ :: before =>
          match before with
          | [] => if hasRoot then "//" else String c0 EmptyString
          | _ => String c0 (string_of_list_ascii (rev before))
          end
      end
  end.

(** [path.basename(path)], no suffix given. *)
Definition basename (path : string) : string :=
  let after_trailing := drop_while is_slash (rev (list_ascii_of_string path)) in
  string_of_list_ascii (rev (take_while (fun c => negb (is_slash c)) after_trailing)).

End Path.

(* ================================================================== *)
(** ** The host: [fs/promises], [execa], the process environment *)
(* ================================================================== *)

(** A thrown value: an [Error] object or anything else. *)
Inductive thrown : Type :=
| JsError (name message : string)
| JsOther (text : string).

(** [String(e)], as [Error.prototype.toString] gives it. *)
Definition thrown_to_string (e : thrown) : string :=
  match e with
  | JsError n m =>
      if String.eqb n "" then m
      else if String.eqb m "" then n
      else n ++ ": " ++ m
  | JsOther t => t
  end.

(** What a [catch] does with [e instanceof Error ? e.message : dflt]. *)
Definition message_or (dflt : string) (e : thrown) : string :=
  match e with
  | JsError _ m => m
  | JsOther _ => dflt
  end.

Record Stats : Type := mkStats { isFile : bool; isDirectory : bool }.

(** What [execa] resolves with; [exitCode] is [undefined] when the
    subprocess gave none. *)
Record ExecaReturn : Type := mkExecaReturn
  { exitCode : option Z; r_stdout : string; r_stderr : string }.

Class Host (World : Type) : Type := mkHost
  { DEBUG : bool  (* process.env.TT_DEBUG === '1' *)
  ; fs_readdir : World -> string -> thrown + list string
  ; fs_stat : World -> string -> thrown + Stats
  ; fs_access : World -> string -> thrown + unit
  ; fs_readFile : World -> string -> thrown + string
    (* execa(command, { shell: true, cwd, timeout: 20000, reject: false }) *)
  ; execa : string -> string -> World -> (thrown + ExecaReturn) * World
  }.

Definition IS_WINDOWS : bool := false.

(* ================================================================== *)
(** ** The monad of [async] functions *)
(* ================================================================== *)

Inductive outcome (A : Type) : Type :=
| Ret (a : A)
| Throw (e : thrown).
Arguments Ret {A} a.
Arguments Throw {A} e.

(** A computation takes the world, and gives an outcome, the world it
    leaves and the lines it printed. *)
Definition M (World A : Type) : Type :=
  World -> (outcome A * World) * list string.

Section Monad.
Context {World : Type}.

Definition ret {A} (a : A) : M World A := fun w => ((Ret a, w), []).

Definition throw {A} (e : thrown) : M World A := fun w => ((Throw e, w), []).

Definition bind {A B} (m : M World A) (f : A -> M World B) : M World B :=
  fun w =>
    match m w with
    | ((Ret a, w1), o1) => let '(r, o2) := f a w1 in (r, (o1 ++ o2)%list)
    | ((Throw e, w1), o1) => ((Throw e, w1), o1)
    end.

(** [try { m } catch (e) { h e }] *)
Definition try_catch {A} (m : M World A) (h : thrown -> M World A) : M World A :=
  fun w =>
    match m w with
    | ((Ret a, w1), o1) => ((Ret a, w1), o1)
    | ((Throw e, w1), o1) => let '(r, o2) := h e w1 in (r, (o1 ++ o2)%list)
    end.

(** [console.log(line)] *)
Definition console_log (line : string) : M World unit :=
  fun w => ((Ret tt, w), [line]).

(** A read of the host that may throw. *)
Definition read {A} (q : World -> thrown + A) : M World A :=
  fun w => match q w with
           | inl e => ((Throw e, w), [])
           | inr a => ((Ret a, w), [])
           end.

Definition when (b : bool) (m : M World unit) : M World unit :=
  if b then m else ret tt.

(** The result and final world of a run, and its console output. *)
Definition run {A} (m : M World A) (w : World) : outcome A * World := fst (m w).
Definition printed {A} (m : M World A) (w : World) : list string := snd (m w).

End Monad.

Declare Scope js_scope.
Delimit Scope js_scope with js.
Notation "x <- m ;; k" := (bind m (fun x => k))
  (at level 100, m at next level, right associativity) : js_scope.
Notation "m ;;; k" := (bind m (fun _ => k))
  (at level 100, right associativity) : js_scope.
Open Scope js_scope.

(* ================================================================== *)
(** ** [executor.ts] and [validator.ts] *)
(* ================================================================== *)

Record ExecutionResult : Type := mkExecutionResult
  { success : bool; stdout : string; stderr : string; error : option string }.

Record ValidationResult : Type := mkValidationResult
  { passed : bool; message : string; resolvedFile : option string }.

(** [types/lesson.ts], [ValidationSchema]: every field but [type] is
    optional. *)
Record Validation : Type := mkValidation
  { vtype : string
  ; file : option string
  ; files : option (list string)
  ; branch : option string
  ; vmessage : option string
  ; content : option string }.

Record CaseMatch : Type := mkCaseMatch
  { cmatch : option string; ambiguous : bool }.

(** [{ passed, message }] without and with [resolvedFile]. *)
Definition verdict (p : bool) (msg : string) : ValidationResult :=
  mkValidationResult p msg None.
Definition verdict_at (p : bool) (msg : string) (f : string) : ValidationResult :=
  mkValidationResult p msg (Some f).

(** The [TypeError]s of V8 for a method call on [undefined] and for
    [for (... of undefined)]. *)
Definition TypeError_replace : thrown :=
  JsError "TypeError" "Cannot read properties of undefined (reading 'replace')".
Definition TypeError_not_iterable : thrown :=
  JsError "TypeError" "files is not iterable".

(** [(e as Error).message] *)
Definition as_Error_message (e : thrown) : string :=
  match e with
  | JsError _ m => m
  | JsOther _ => "undefined"
  end.

(** [chalk.yellow]: the ANSI colour is off, as it is when the output is
    not a terminal. *)
Definition chalk_yellow (s : string) : string := s.

Definition uniqueCaseInsensitiveMatch (list : list string) (target : string)
  : CaseMatch :=
  let t := Js.toLowerCase target in
  let hits := filter (fun x => String.eqb (Js.toLowerCase x) t) list in
  match hits with
  | [] => mkCaseMatch None false
  | [h] => mkCaseMatch (Some h) false
  | _ => mkCaseMatch None true
  end.

(** The entries of a NUL-separated listing of git:
    [stdout.split('\0').map(s => normalizeGitEntry(s)).filter(Boolean)] *)
Definition parse_entries (out : string) : list string :=
  filter Js.truthy (map normalizeGitEntry (Js.split Js.NUL out)).

Definition git_log_of (target : string) : string :=
  "git log --oneline -- " ++ String Js.dquote (target ++ String Js.dquote "").

Section Engine.
Context {World : Type} {host : Host World}.

Local Abbreviation M := (M World).

Definition call_execa (command cwd : string) : M ExecaReturn :=
  fun w =>
    let '(r, w1) := execa command cwd w in
    match r with
    | inl e => ((Throw e, w1), [])
    | inr x => ((Ret x, w1), [])
    end.

Definition show_exitCode (c : option Z) : string :=
  match c with Some z => Js.show_Z z | None => "undefined" end.

Definition executeCommand (command cwd : string) : M ExecutionResult :=
  when DEBUG
    (console_log ("[DEBUG] Executing in: " ++ cwd) ;;;
     console_log ("[DEBUG] Command: " ++ command)) ;;;
  try_catch
    (result <- call_execa command cwd ;;
     when DEBUG
       (console_log ("[DEBUG] Exit code: " ++ show_exitCode (exitCode result)) ;;;
        console_log ("[DEBUG] Stdout length: "
                     ++ Js.show_nat (String.length (r_stdout result)) ++ " bytes") ;;;
        console_log ("[DEBUG] Stdout: " ++ Js.JSON_stringify (r_stdout result))) ;;;
     ret (mkExecutionResult
            (match exitCode result with Some z => Z.eqb z 0 | None => false end)
            (r_stdout result) (r_stderr result) None))
    (fun error =>
       when DEBUG
         (console_log ("[DEBUG] Execution error: " ++ thrown_to_string error)) ;;;
       ret (mkExecutionResult false "" ""
              (Some (message_or "Unknown error" error)))).

(** [normalizeRel(p)] and [normalizeGitEntry(p)] at an argument that may be
    [undefined]: [p.replace] throws. *)
Definition js_normalizeRel (p : option string) : M string :=
  match p with
  | Some s => ret (normalizeRel s)
  | None => throw TypeError_replace
  end.

Definition js_normalizeGitEntry (p : option string) : M string :=
  match p with
  | Some s => ret (normalizeGitEntry s)
  | None => throw TypeError_replace
  end.

Definition getCaseMatches (dirPath targetName : string) : M (list string) :=
  try_catch
    (entries <- read (fun w => fs_readdir w dirPath) ;;
     let target := Js.toLowerCase targetName in
     ret (filter (fun e => String.eqb (Js.toLowerCase e) target) entries))
    (fun _ => ret []).

Definition getActualFilename (dirPath targetName : string) : M (option string) :=
  matches <- getCaseMatches dirPath targetName ;;
  match matches with
  | [] => ret None
  | [m] => ret (Some m)
  | _ =>
      throw (JsError "Error"
               ("Multiple entries match '" ++ targetName
                ++ "' with different casing: " ++ Js.join ", " matches
                ++ ". Keep only one."))
  end.

Definition getStagedEntries (cwd : string) : M (option (list string)) :=
  res <- executeCommand "git diff --cached --name-only -z" cwd ;;
  if negb (success res) then ret None
  else ret (Some (parse_entries (stdout res))).

Definition getTrackedEntries (cwd : string) : M (option (list string)) :=
  res <- executeCommand "git ls-files -z" cwd ;;
  if negb (success res) then ret None
  else ret (Some (parse_entries (stdout res))).

Definition validateGitInitialized (cwd : string) : M ValidationResult :=
  try_catch
    (let gitDir := Path.join cwd ".git" in
     read (fun w => fs_access w gitDir) ;;;
     ret (verdict true "Git repository initialized successfully"))
    (fun _ => ret (verdict false "Git repository not found. Try: git init")).

(** [try { actualBase = await getActualFilename(..) } catch (e) { return .. }]:
    the left injection is the verdict returned from the [catch]. *)
Definition resolve_or_return (dirAbs expectedBase : string)
  : M (ValidationResult + option string) :=
  try_catch
    (a <- getActualFilename dirAbs expectedBase ;; ret (inr a))
    (fun e => ret (inl (verdict false (as_Error_message e)))).

(** [!actualBase] is true of [null] and of the empty string. *)
Definition present (a : option string) : option string :=
  match a with
  | Some s => if Js.truthy s then Some s else None
  | None => None
  end.

Definition validateFileExists (cwd : string) (file : option string)
  : M ValidationResult :=
  rel <- js_normalizeRel file ;;
  let abs := Path.join cwd rel in
  let dirAbs := Path.dirname abs in
  let expectedBase := Path.basename rel in
  r <- resolve_or_return dirAbs expectedBase ;;
  match r with
  | inl early => ret early
  | inr actualBase =>
      match present actualBase with
      | None => ret (verdict false ("File " ++ Js.show file ++ " not found"))
      | Some actualBase =>
          let actualAbs := Path.join dirAbs actualBase in
          st <- read (fun w => fs_stat w actualAbs) ;;
          if negb (isFile st) then
            let fix_ :=
              if IS_WINDOWS
              then "rmdir /s /q " ++ actualBase ++ " && echo Hello>" ++ expectedBase
              else "rm -rf " ++ actualBase ++ " && echo "
                   ++ String Js.dquote ("Hello" ++ String Js.dquote (" > " ++ expectedBase)) in
            ret (verdict_at false
                   ("A folder named '" ++ actualBase ++ "' exists, but a file named '"
                    ++ expectedBase ++ "' is required. Do not use mkdir. Fix: " ++ fix_)
                   (normalizeRel (Path.join (Path.dirname rel) actualBase)))
          else
            when (negb (String.eqb actualBase expectedBase))
              (console_log (chalk_yellow
                 ("Note: File exists as '" ++ actualBase ++ "' instead of '"
                  ++ expectedBase ++ "'"))) ;;;
            ret (verdict_at true
                   ("File " ++ Js.show file ++ " exists (as " ++ actualBase ++ ")")
                   (normalizeRel (Path.join (Path.dirname rel) actualBase)))
      end
  end.

(** The accumulators of the loop of [validateFilesExist]. *)
Record FilesExistAcc : Type := mkFilesExistAcc
  { missing : list string
  ; wrongType : list (string * string)   (* expected, actual *)
  ; wrongCase : list (string * string) }.

Fixpoint filesExist_loop (cwd : string) (todo : list string) (acc : FilesExistAcc)
  : M (ValidationResult + FilesExistAcc) :=
  match todo with
  | [] => ret (inr acc)
  | file :: rest =>
      let rel := normalizeRel file in
      let abs := Path.join cwd rel in
      let dirAbs := Path.dirname abs in
      let expectedBase := Path.basename rel in
      r <- resolve_or_return dirAbs expectedBase ;;
      match r with
      | inl early => ret (inl early)
      | inr actualBase =>
          match present actualBase with
          | None =>
              filesExist_loop cwd rest
                (mkFilesExistAcc (missing acc ++ [file])%list (wrongType acc) (wrongCase acc))
          | Some actualBase =>
              let actualAbs := Path.join dirAbs actualBase in
              st <- read (fun w => fs_stat w actualAbs) ;;
              if negb (isFile st) then
                filesExist_loop cwd rest
                  (mkFilesExistAcc (missing acc)
                     (wrongType acc ++ [(expectedBase, actualBase)])%list (wrongCase acc))
              else if negb (String.eqb actualBase expectedBase) then
                filesExist_loop cwd rest
                  (mkFilesExistAcc (missing acc) (wrongType acc)
                     (wrongCase acc ++ [(expectedBase, actualBase)])%list)
              else filesExist_loop cwd rest acc
          end
      end
  end.

Fixpoint log_each (lines : list string) : M unit :=
  match lines with
  | [] => ret tt
  | l :: rest => console_log l ;;; log_each rest
  end.

Definition validateFilesExist (cwd : string) (files : option (list string))
  : M ValidationResult :=
  match files with
  | None => throw TypeError_not_iterable
  | Some files =>
      r <- filesExist_loop cwd files (mkFilesExistAcc [] [] []) ;;
      match r with
      | inl early => ret early
      | inr acc =>
          match wrongType acc with
          | _ :: _ =>
              let detail :=
                Js.join ", "
                  (map (fun w => fst w ++ " (found folder: " ++ snd w ++ ")")
                       (wrongType acc)) in
              ret (verdict false ("A folder exists where a file is required: " ++ detail))
          | [] =>
              log_each
                (map (fun wc => chalk_yellow
                        ("Note: File exists as '" ++ snd wc ++ "' instead of '"
                         ++ fst wc ++ "'")) (wrongCase acc)) ;;;
              match missing acc with
              | [] => ret (verdict true "All files exist")
              | _ => ret (verdict false ("Missing files: " ++ Js.join ", " (missing acc)))
              end
          end
      end
  end.

Definition validateFileStaged (cwd : string) (file : option string)
  : M ValidationResult :=
  when DEBUG
    (console_log "[DEBUG] validateFileStaged called" ;;;
     console_log ("[DEBUG] cwd: " ++ cwd) ;;;
     console_log ("[DEBUG] target file: " ++ Js.show file)) ;;;
  stagedFiles <- getStagedEntries cwd ;;
  match stagedFiles with
  | None => ret (verdict false "Failed to check git status")
  | Some stagedFiles =>
      target <- js_normalizeGitEntry file ;;
      if Js.mem target stagedFiles then
        ret (verdict true ("File " ++ Js.show file ++ " is staged"))
      else
        let u := uniqueCaseInsensitiveMatch stagedFiles target in
        if ambiguous u then
          ret (verdict false
                 ("Multiple staged files match '" ++ Js.show file
                  ++ "' ignoring case. Keep only one."))
        else
          match present (cmatch u) with
          | Some m =>
              when (negb (String.eqb m target))
                (console_log (chalk_yellow
                   ("Note: File staged as '" ++ m ++ "' instead of '"
                    ++ Js.show file ++ "'"))) ;;;
              ret (verdict true
                     ("File " ++ Js.show file ++ " is staged (as " ++ m ++ ")"))
          | None =>
              ret (verdict false
                     ("File " ++ Js.show file ++ " is not staged. Try: git add "
                      ++ Js.show file))
          end
  end.

Fixpoint filesStaged_loop (stagedFiles todo unstaged : list string)
  : M (ValidationResult + list string) :=
  match todo with
  | [] => ret (inr unstaged)
  | f :: rest =>
      let target := normalizeGitEntry f in
      if Js.mem target stagedFiles then filesStaged_loop stagedFiles rest unstaged
      else
        let u := uniqueCaseInsensitiveMatch stagedFiles target in
        if ambiguous u then
          ret (inl (verdict false
                      ("Multiple staged files match '" ++ f
                       ++ "' ignoring case. Keep only one.")))
        else
          match present (cmatch u) with
          | Some m =>
              when (negb (String.eqb m target))
                (console_log (chalk_yellow
                   ("Note: File staged as '" ++ m ++ "' instead of '" ++ f ++ "'"))) ;;;
              filesStaged_loop stagedFiles rest unstaged
          | None => filesStaged_loop stagedFiles rest (unstaged ++ [f])%list
          end
  end.

Definition validateFilesStaged (cwd : string) (files : option (list string))
  : M ValidationResult :=
  stagedFiles <- getStagedEntries cwd ;;
  match stagedFiles with
  | None => ret (verdict false "Failed to check git status")
  | Some stagedFiles =>
      match files with
      | None => throw TypeError_not_iterable
      | Some files =>
          r <- filesStaged_loop stagedFiles files [] ;;
          match r with
          | inl early => ret early
          | inr [] => ret (verdict true "All files are staged")
          | inr unstaged =>
              ret (verdict false ("Files not staged: " ++ Js.join ", " unstaged))
          end
      end
  end.

(** The middle of [validateFileCommitted]: the path the git log is asked
    about, reconciled against the tracked entries; the left injection is
    the verdict of an ambiguous reconciliation. *)
Definition reconcile_tracked (tracked : option (list string))
           (file : option string) (resolvedRel : string)
  : ValidationResult + string :=
  match tracked with
  | None => inr resolvedRel
  | Some tracked =>
      if Js.mem resolvedRel tracked then inr resolvedRel
      else
        let u := uniqueCaseInsensitiveMatch tracked resolvedRel in
        if ambiguous u then
          inl (verdict false
                 ("Multiple tracked files match '" ++ Js.show file
                  ++ "' ignoring case. Keep only one."))
        else
          match present (cmatch u) with
          | Some m => inr m
          | None => inr resolvedRel
          end
  end.

Definition commit_hint (name : string) : string :=
  "Progress: file staged. Next: commit it. Run: git commit -m "
  ++ String Js.dquote ("add " ++ name ++ String Js.dquote "").

Definition validateFileCommitted (cwd : string) (file : option string)
  : M ValidationResult :=
  rel <- js_normalizeRel file ;;
  let abs := Path.join cwd rel in
  let dirAbs := Path.dirname abs in
  let expectedBase := Path.basename rel in
  r <- resolve_or_return dirAbs expectedBase ;;
  match r with
  | inl early => ret early
  | inr actualBase =>
      match present actualBase with
      | None =>
          let createHint :=
            if IS_WINDOWS then "echo hello>" ++ expectedBase
            else "echo " ++ String Js.dquote ("hello" ++ String Js.dquote (" > " ++ expectedBase)) in
          ret (verdict false
                 ("Progress: create the file '" ++ expectedBase ++ "'. Example: "
                  ++ createHint))
      | Some actualBase =>
          let actualAbs := Path.join dirAbs actualBase in
          st <- read (fun w => fs_stat w actualAbs) ;;
          if negb (isFile st) then
            ret (verdict false
                   ("A folder named '" ++ actualBase ++ "' exists, but a file named '"
                    ++ expectedBase ++ "' is required. Do not use mkdir."))
          else
            let resolvedRel := normalizeRel (Path.join (Path.dirname rel) actualBase) in
            tracked <- getTrackedEntries cwd ;;
            match reconcile_tracked tracked file resolvedRel with
            | inl early => ret early
            | inr commitTarget =>
                logRes <- executeCommand (git_log_of commitTarget) cwd ;;
                if success logRes && Js.truthy (Js.trim (stdout logRes)) then
                  target <- js_normalizeGitEntry file ;;
                  when (negb (String.eqb commitTarget target))
                    (console_log (chalk_yellow
                       ("Note: File is tracked as '" ++ commitTarget
                        ++ "' instead of '" ++ Js.show file ++ "'"))) ;;;
                  ret (verdict_at true
                         ("File " ++ Js.show file ++ " has been committed")
                         commitTarget)
                else
                  staged <- getStagedEntries cwd ;;
                  match staged with
                  | None => ret (verdict false "Failed to check git status")
                  | Some staged =>
                      if Js.mem commitTarget staged then
                        ret (verdict_at false
                               (commit_hint (Path.basename commitTarget))
                               commitTarget)
                      else
                        let u := uniqueCaseInsensitiveMatch staged commitTarget in
                        if ambiguous u then
                          ret (verdict false
                                 ("Multiple staged files match '" ++ Js.show file
                                  ++ "' ignoring case. Keep only one."))
                        else
                          match present (cmatch u) with
                          | Some stagedMatch =>
                              when (negb (String.eqb stagedMatch commitTarget))
                                (console_log (chalk_yellow
                                   ("Note: File staged as '" ++ stagedMatch
                                    ++ "' instead of '" ++ commitTarget ++ "'"))) ;;;
                              ret (verdict_at false
                                     (commit_hint (Path.basename stagedMatch))
                                     stagedMatch)
                          | None =>
                              ret (verdict_at false
                                     ("Progress: file created. Next: stage it. Run: git add "
                                      ++ actualBase)
                                     commitTarget)
                          end
                  end
            end
      end
  end.

Definition validateCommitExists (cwd : string) (message : option string)
  : M ValidationResult :=
  result <- executeCommand "git log --oneline -1" cwd ;;
  if negb (success result) || negb (Js.truthy (Js.trim (stdout result))) then
    ret (verdict false
           ("No commits found. Try: git commit -m "
            ++ String Js.dquote ("message" ++ String Js.dquote "")))
  else
    match present message with
    | Some message =>
        let commitMessage :=
          Js.trim (Js.join " " (tl (Js.split Js.space (stdout result)))) in
        if Js.includes commitMessage message then
          ret (verdict true "Commit created with expected message")
        else
          ret (verdict false
                 ("Commit message doesn't match. Expected: "
                  ++ String Js.dquote (message ++ String Js.dquote "")))
    | None => ret (verdict true "Commit exists")
    end.

(** [branches.includes(branch)]: no string is [undefined]. *)
Definition mem_opt (x : option string) (xs : list string) : bool :=
  match x with Some s => Js.mem s xs | None => false end.

Definition validateBranchExists (cwd : string) (branch : option string)
  : M ValidationResult :=
  result <- executeCommand "git branch" cwd ;;
  if negb (success result) then ret (verdict false "Failed to list branches")
  else
    let branches :=
      map (fun b => Js.trim (Js.remove_first Js.star b))
          (Js.split Js.LF (stdout result)) in
    if mem_opt branch branches then
      ret (verdict true ("Branch " ++ Js.show branch ++ " exists"))
    else
      ret (verdict false
             ("Branch " ++ Js.show branch ++ " not found. Try: git branch "
              ++ Js.show branch)).

Definition validateBranchActive (cwd : string) (branch : option string)
  : M ValidationResult :=
  result <- executeCommand "git branch --show-current" cwd ;;
  if negb (success result) then ret (verdict false "Failed to check current branch")
  else
    let currentBranch := Js.trim (stdout result) in
    if match branch with Some b => String.eqb currentBranch b | None => false end then
      ret (verdict true ("On branch " ++ Js.show branch))
    else
      ret (verdict false
             ("Not on branch " ++ Js.show branch ++ ". Current: " ++ currentBranch
              ++ ". Try: git checkout " ++ Js.show branch)).

Definition validateFileContains (cwd : string) (file content : option string)
  : M ValidationResult :=
  try_catch
    (rel <- js_normalizeRel file ;;
     let filePath := Path.join cwd rel in
     st <- read (fun w => fs_stat w filePath) ;;
     if negb (isFile st) then
       ret (verdict false ("Expected a file but found a folder: " ++ Js.show file))
     else
       fileContent <- read (fun w => fs_readFile w filePath) ;;
       if Js.includes fileContent (Js.show content) then
         ret (verdict true ("File " ++ Js.show file ++ " contains expected content"))
       else
         ret (verdict false ("File " ++ Js.show file ++ " doesn't contain expected content")))
    (fun _ => ret (verdict false ("Failed to read " ++ Js.show file))).

(** The kinds the [switch] of [validateStep] has a [case] for. *)
Definition known_kinds : list string :=
  [ "git-initialized"; "file-exists"; "files-exist"; "file-staged"
  ; "files-staged"; "file-committed"; "commit-exists"; "branch-exists"
  ; "branch-active"; "file-contains" ].

Definition dispatch (validation : Validation) (cwd : string) : M ValidationResult :=
  let t := vtype validation in
  if String.eqb t "git-initialized" then validateGitInitialized cwd
  else if String.eqb t "file-exists" then validateFileExists cwd (file validation)
  else if String.eqb t "files-exist" then validateFilesExist cwd (files validation)
  else if String.eqb t "file-staged" then validateFileStaged cwd (file validation)
  else if String.eqb t "files-staged" then validateFilesStaged cwd (files validation)
  else if String.eqb t "file-committed" then validateFileCommitted cwd (file validation)
  else if String.eqb t "commit-exists" then validateCommitExists cwd (vmessage validation)
  else if String.eqb t "branch-exists" then validateBranchExists cwd (branch validation)
  else if String.eqb t "branch-active" then validateBranchActive cwd (branch validation)
  else if String.eqb t "file-contains" then
    validateFileContains cwd (file validation) (content validation)
  else ret (verdict false ("Unknown validation type: " ++ t)).

Definition validateStep (validation : Validation) (cwd : string)
  : M ValidationResult :=
  try_catch
    (dispatch validation cwd)
    (fun error => ret (verdict false (message_or "Validation error" error))).

End Engine.

(* ================================================================== *)
(** ** A concrete host for examples

    A flat, case-sensitive file system (absolute path to node), a table of
    what the shell answers to the command lines it is given, and the one
    feature of [sh] the examples need: a command substitution
    [$(touch NAME)] inside a command line is run, and creates [NAME] in the
    working directory. *)
(* ================================================================== *)

Module TestHost.

Inductive node : Type :=
| RegularFile (text : string)
| Folder.

Record World : Type := mkWorld
  { nodes : list (string * node)
  ; answers : list (string * (thrown + ExecaReturn)) }.

Fixpoint lookup {A} (k : string) (l : list (string * A)) : option A :=
  match l with
  | [] => None
  | (k', v) :: rest => if String.eqb k k' then Some v else lookup k rest
  end.

Definition ENOENT (syscall path : string) : thrown :=
  JsError "Error"
    ("ENOENT: no such file or directory, " ++ syscall ++ " '" ++ path ++ "'").

Definition readdir (w : World) (p : string) : thrown + list string :=
  match lookup p (nodes w) with
  | Some Folder =>
      inr (map (fun e => Path.basename (fst e))
               (filter (fun e => String.eqb (Path.dirname (fst e)) p
                                 && negb (String.eqb (fst e) p))
                       (nodes w)))
  | Some (RegularFile _) =>
      inl (JsError "Error" ("ENOTDIR: not a directory, scandir '" ++ p ++ "'"))
  | None => inl (ENOENT "scandir" p)
  end.

Definition stat (w : World) (p : string) : thrown + Stats :=
  match lookup p (nodes w) with
  | Some (RegularFile _) => inr (mkStats true false)
  | Some Folder => inr (mkStats false true)
  | None => inl (ENOENT "stat" p)
  end.

Definition access (w : World) (p : string) : thrown + unit :=
  match lookup p (nodes w) with
  | Some _ => inr tt
  | None => inl (ENOENT "access" p)
  end.

Definition readFile (w : World) (p : string) : thrown + string :=
  match lookup p (nodes w) with
  | Some (RegularFile text) => inr text
  | Some Folder =>
      inl (JsError "Error" "EISDIR: illegal operation on a directory, read")
  | None => inl (ENOENT "open" p)
  end.

(** The text up to the first closing parenthesis. *)
Fixpoint until_paren (s : string) : string :=
  match s with
  | EmptyString => EmptyString
  | String c r => if Ascii.eqb c ")"%char then EmptyString else String c (until_paren r)
  end.

Definition strip_prefix (p s : string) : option string :=
  if String.prefix p s
  then Some (String.substring (String.length p) (String.length s - String.length p) s)
  else None.

(** The names [NAME] of the substitutions [$(touch NAME)] of a command
    line. *)
Fixpoint touched (command : string) : list string :=
  match command with
  | EmptyString => []
  | String _ r =>
      match strip_prefix "$(touch " command with
      | Some after => until_paren after :: touched r
      | None => touched r
      end
  end.

Definition create (cwd : string) (w : World) (name : string) : World :=
  let p := Path.join cwd name in
  match lookup p (nodes w) with
  | Some _ => w
  | None => mkWorld (nodes w ++ [(p, RegularFile "")])%list (answers w)
  end.

Definition not_a_repository : ExecaReturn :=
  mkExecaReturn (Some 128%Z) ""
    "fatal: not a git repository (or any of the parent directories): .git".

Definition shell (command cwd : string) (w : World)
  : (thrown + ExecaReturn) * World :=
  let w1 := fold_left (create cwd) (touched command) w in
  (match lookup command (answers w) with
   | Some a => a
   | None => inr not_a_repository
   end, w1).

Definition host_with (tracing : bool) : Host World :=
  {| DEBUG := tracing
   ; fs_readdir := readdir
   ; fs_stat := stat
   ; fs_access := access
   ; fs_readFile := readFile
   ; execa := shell |}.

#[export] Instance host : Host World := host_with false.

Definition exists_in (w : World) (p : string) : bool :=
  match lookup p (nodes w) with Some _ => true | None => false end.

(** An exit with status 0 and the given output. *)
Definition ok (out : string) : thrown + ExecaReturn :=
  inr (mkExecaReturn (Some 0%Z) out "").

Definition nul_terminated (entries : list string) : string :=
  String.concat "" (map (fun e => e ++ String Js.NUL "") entries).

End TestHost.

(** Working directories of the examples, all at [/w]. *)
Module Examples.
Import TestHost.

(** [readme.md] on disk and staged. *)
Definition lower_readme : World :=
  mkWorld [("/w", Folder); ("/w/readme.md", RegularFile "hello")]
          [("git diff --cached --name-only -z", ok (nul_terminated ["readme.md"]))].

(** A regular file named [.git], as a linked worktree has. *)
Definition dot_git_file : World :=
  mkWorld [("/w", Folder); ("/w/.git", RegularFile "gitdir: /repo/.git/worktrees/w")] [].

(** No [.git] at all. *)
Definition fresh : World := mkWorld [("/w", Folder)] [].

(** A file whose name is a command substitution. *)
Definition hostile_name : World :=
  mkWorld [("/w", Folder); ("/w/$(touch pwned)", RegularFile "")] [].

(** [notes.txt] holds the word [undefined]. *)
Definition notes : World :=
  mkWorld [("/w", Folder); ("/w/notes.txt", RegularFile "x is undefined")] [].

(** [F.txt] and [f.txt] side by side. *)
Definition two_casings : World :=
  mkWorld [("/w", Folder); ("/w/F.txt", RegularFile "a"); ("/w/f.txt", RegularFile "b")] [].

(** [README.md] on disk, tracked and committed. *)
Definition committed_readme : World :=
  mkWorld [("/w", Folder); ("/w/.git", Folder); ("/w/README.md", RegularFile "hello")]
          [ ("git ls-files -z", ok (nul_terminated ["README.md"]))
          ; (git_log_of "README.md", ok "1a2b3c4 add README.md")
          ; ("git diff --cached --name-only -z", ok "") ].

End Examples.

(* ================================================================== *)
(** ** Vocabulary of the statements *)
(* ================================================================== *)

(** The descriptor [{ type: kind, file: f }]. *)
Definition check (kind f : string) : Validation :=
  mkValidation kind (Some f) None None None None.

(** The descriptor [{ type: kind }], every optional field absent. *)
Definition bare (kind : string) : Validation :=
  mkValidation kind None None None None None.

(** Where the evaluators look for [f], under which base name, and the
    relative path they report for the entry [actualBase] found there. *)
Definition directory_of (cwd f : string) : string :=
  Path.dirname (Path.join cwd (normalizeRel f)).
Definition expected_base (f : string) : string :=
  Path.basename (normalizeRel f).
Definition resolved_path (f actualBase : string) : string :=
  normalizeRel (Path.join (Path.dirname (normalizeRel f)) actualBase).

(** The entries of [l] equal to [target] once both are lowercased. *)
Definition case_hits (target : string) (l : list string) : list string :=
  filter (fun e => String.eqb (Js.toLowerCase e) (Js.toLowerCase target)) l.

(** [f'] is a case variant of [f]: the same letters, whatever their case. *)
Definition case_variant (f f' : string) : Prop :=
  Js.toLowerCase f' = Js.toLowerCase f.

Definition head_ws (s : string) : bool :=
  match s with
  | String c _ => Js.is_ws c
  | EmptyString => false
  end.

Fixpoint last_ws (s : string) : bool :=
  match s with
  | EmptyString => false
  | String c EmptyString => Js.is_ws c
  | String _ r => last_ws r
  end.

(** A file name: one path component, not empty, neither [.] nor [..],
    without separator and without white space around it. *)
Definition file_name (f : string) : bool :=
  negb (String.eqb f "") && negb (String.eqb f ".") && negb (String.eqb f "..")
  && negb (Js.occurs Js.slash f) && negb (Js.occurs Js.bslash f)
  && negb (head_ws f) && negb (last_ws f).

(** The message names every one of the entries. *)
Definition names_all (msg : string) (entries : list string) : Prop :=
  forall e, In e entries -> Js.includes msg e = true.

(** What [executeCommand] makes of the settlement of the [execa] promise. *)
Definition execution_result (a : thrown + ExecaReturn) : ExecutionResult :=
  match a with
  | inl e => mkExecutionResult false "" "" (Some (message_or "Unknown error" e))
  | inr r =>
      mkExecutionResult
        (match exitCode r with Some z => Z.eqb z 0 | None => false end)
        (r_stdout r) (r_stderr r) None
  end.

Definition not_slash (c : ascii) : bool := negb (Path.is_slash c).

(** The message of the [Error] that [getActualFilename] throws. *)
Definition casing_conflict (targetName : string) (matches : list string) : string :=
  "Multiple entries match '" ++ targetName ++ "' with different casing: "
  ++ Js.join ", " matches ++ ". Keep only one.".

(** The entries of the directory that match the name whatever the case; a
    directory that cannot be read has none. *)
Definition dir_hits {World : Type} {host : Host World}
           (w : World) (dirPath targetName : string) : list string :=
  match fs_readdir w dirPath with
  | inl _ => []
  | inr entries => case_hits targetName entries
  end.

(** The entry list the git readers make of the settlement of their
    command; none when the command did not exit with status 0. *)
Definition entries_of (a : thrown + ExecaReturn) : option (list string) :=
  if success (execution_result a)
  then Some (parse_entries (stdout (execution_result a)))
  else None.

(** The command lines the engine hands to the shell: five fixed queries,
    and the git log of a path put between double quotes. *)
Definition fixed_queries : list string :=
  [ "git diff --cached --name-only -z"; "git ls-files -z"
  ; "git log --oneline -1"; "git branch"; "git branch --show-current" ].

Definition engine_command (command : string) : bool :=
  Js.mem command fixed_queries || String.prefix "git log --oneline -- " command.

(** A computation that leaves the world as it found it. *)
Definition keeps_world {World A : Type} (m : M World A) : Prop :=
  forall w, snd (run m w) = w.

(** A computation that only prints. *)
Definition silent {World : Type} (m : M World unit) : Prop :=
  forall w, run m w = (Ret tt, w).

(* ================================================================== *)
(** ** Further vocabulary *)
(* ================================================================== *)

(** The descriptors [{ type: kind, files }], [{ type: kind, branch }] and
    [{ type: 'commit-exists', message }]. *)
Definition checks (kind : string) (fs : list string) : Validation :=
  mkValidation kind None (Some fs) None None None.
Definition branch_check (kind b : string) : Validation :=
  mkValidation kind None None (Some b) None None.
Definition commit_check (m : option string) : Validation :=
  mkValidation "commit-exists" None None None m None.

(** Whether the verdict of a check is a pass. *)
Definition passes {World : Type} {host : Host World}
           (v : Validation) (cwd : string) (w : World) : bool :=
  match fst (run (validateStep v cwd) w) with
  | Ret r => passed r
  | Throw _ => false
  end.

(** A computation that returns, whatever the world. *)
Definition never_throws {World A : Type} (m : M World A) : Prop :=
  forall w, exists a w', run m w = (Ret a, w').

(** An entry as the git readers return them: not empty, and free of NUL,
    backslash, carriage return and surrounding white space. *)
Definition clean_entry (e : string) : Prop :=
  e <> "" /\ Js.occurs Js.NUL e = false /\ Js.occurs Js.bslash e = false
  /\ Js.occurs Js.CR e = false /\ head_ws e = false /\ last_ws e = false.

(** Whether the settlement of an [execa] promise is an exit with status 0. *)
Definition exited_zero (a : thrown + ExecaReturn) : bool :=
  match a with
  | inr r => match exitCode r with Some z => Z.eqb z 0 | None => false end
  | inl _ => false
  end.

(** A line of the listing [git branch] prints: the current branch after a
    star, the others after two spaces. *)
Definition branch_line (b : bool * string) : string :=
  (if fst b then "* " else "  ") ++ snd b.

(** The listing of [git branch], lines joined by line feeds. *)
Definition branch_listing (bs : list (bool * string)) : string :=
  Js.join (String Js.LF "") (map branch_line bs).

(** A branch name as git accepts them, as far as the check depends on it:
    no line feed, no star, no white space at either end. *)
Definition branch_name (n : string) : Prop :=
  Js.occurs Js.LF n = false /\ Js.occurs Js.star n = false
  /\ head_ws n = false /\ last_ws n = false.


Module NoGit.

(** A shell without git: every command line exits with status 127. *)
Definition shell (command cwd : string) (w : TestHost.World)
  : (thrown + ExecaReturn) * TestHost.World :=
  (inr (mkExecaReturn (Some 127%Z) "" "git: command not found"), w).

Definition host : Host TestHost.World :=
  {| DEBUG := false
   ; fs_readdir := TestHost.readdir
   ; fs_stat := TestHost.stat
   ; fs_access := TestHost.access
   ; fs_readFile := TestHost.readFile
   ; execa := shell |}.

End NoGit.

(** What the directory resolver and [fs.stat] find for one expected path:
    nothing, several entries that differ by case, an entry [fs.stat] fails
    on, an entry that is not a regular file, or a regular file. *)
Inductive file_state : Type :=
| Missing
| Conflict (names : list string)
| StatFails (e : thrown)
| NotFile (actual : string)
| Regular (actual : string).

Definition classify {World : Type} {host : Host World}
           (w : World) (cwd f : string) : file_state :=
  match dir_hits w (directory_of cwd f) (expected_base f) with
  | [] => Missing
  | [m] =>
      if Js.truthy m then
        match fs_stat w (Path.join (directory_of cwd f) m) with
        | inl e => StatFails e
        | inr st => if isFile st then Regular m else NotFile m
        end
      else Missing
  | ms => Conflict ms
  end.

Definition is_regular (s : file_state) : bool :=
  match s with Regular _ => true | _ => false end.
Definition is_missing (s : file_state) : bool :=
  match s with Missing => true | _ => false end.
Definition settles (s : file_state) : bool :=
  match s with Conflict _ | StatFails _ => false | _ => true end.

(** The expected and actual names of the listed paths found as folders. *)
Definition folders_of {World : Type} {host : Host World}
           (w : World) (cwd : string) (fs : list string) : list (string * string) :=
  flat_map (fun f => match classify w cwd f with
                     | NotFile a => [(expected_base f, a)]
                     | _ => []
                     end) fs.

(** How one expected path stands against the staged entries. *)
Inductive staged_state : Type :=
| StagedExact
| StagedAs (entry : string)
| StagedAmbiguous
| Unstaged.

Definition staged_state_of (staged : list string) (f : string) : staged_state :=
  let target := normalizeGitEntry f in
  if Js.mem target staged then StagedExact
  else match case_hits target staged with
       | [] => Unstaged
       | [m] => StagedAs m
       | _ => StagedAmbiguous
       end.

Definition is_staged (s : staged_state) : bool :=
  match s with StagedExact | StagedAs _ => true | _ => false end.
Definition is_unstaged (s : staged_state) : bool :=
  match s with Unstaged => true | _ => false end.

Module Dangling.

(** A file system whose entries are listed but cannot be stat-ed, as the
    target of a dangling symbolic link cannot. *)
Definition host : Host TestHost.World :=
  {| DEBUG := false
   ; fs_readdir := TestHost.readdir
   ; fs_stat := fun _ p => inl (TestHost.ENOENT "stat" p)
   ; fs_access := TestHost.access
   ; fs_readFile := TestHost.readFile
   ; execa := TestHost.shell |}.

End Dangling.

(** More working directories at [/w]. *)
Module Cases.
Import TestHost.

(** One commit, [main] checked out, a second branch. *)
Definition one_commit : World :=
  mkWorld [("/w", Folder); ("/w/.git", Folder); ("/w/README.md", RegularFile "hello")]
          [ ("git log --oneline -1", ok "1a2b3c4 add README.md")
          ; ("git branch", ok (branch_listing [(true, "main"); (false, "feature")]))
          ; ("git branch --show-current", ok "main") ].

(** A file, a folder and nothing else; [b.txt] and [B.txt] staged. *)
Definition mixed : World :=
  mkWorld [("/w", Folder); ("/w/a.txt", RegularFile "a"); ("/w/docs", Folder)]
          [("git diff --cached --name-only -z",
            ok (nul_terminated ["a.txt"; "b.txt"; "B.txt"]))].

End Cases.

(* ================================================================== *)
(** ** [progress.ts]

    The value [JSON.parse] returns is taken at the type the code gives it,
    [Progress]; a progress file that holds another JSON value is outside
    this model.  [JSON.parse], [JSON.stringify], [fs.mkdir], [fs.writeFile],
    the clock and the home directory are the store's.  Of the two readings
    of the clock in [markStepComplete] the first is overwritten before it is
    stored; both read the clock of the world they run in. *)
(* ================================================================== *)

Record LessonProgress : Type := mkLessonProgress
  { completedSteps : list string; lastUpdated : string }.

(** An object of type [Progress]: its own properties, in insertion order. *)
Definition Progress : Type := list (string * LessonProgress).

Class Store (World : Type) : Type := mkStore
  { homedir : string                                  (* os.homedir() *)
  ; Date_toISOString : World -> string                (* new Date().toISOString() *)
  ; JSON_parse : string -> thrown + Progress
  ; JSON_stringify : Progress -> string               (* JSON.stringify(p, null, 2) *)
  ; fs_mkdir : World -> string -> (thrown + unit) * World      (* recursive: true *)
  ; fs_writeFile : World -> string -> string -> (thrown + unit) * World
  ; inspect : thrown -> string                        (* how the console shows it *)
  }.

(** The property names every object inherits from [Object.prototype]; the
    value of each is an object or a function, so it is truthy and has no
    [completedSteps]. *)
Definition Object_prototype : list string :=
  [ "constructor"; "__defineGetter__"; "__defineSetter__"; "hasOwnProperty"
  ; "__lookupGetter__"; "__lookupSetter__"; "isPrototypeOf"
  ; "propertyIsEnumerable"; "toString"; "valueOf"; "__proto__"; "toLocaleString" ].

Fixpoint own_property (k : string) (p : Progress) : option LessonProgress :=
  match p with
  | [] => None
  | (k', v) :: rest => if String.eqb k k' then Some v else own_property k rest
  end.

(** [p[k] = v] *)
Fixpoint set_property (k : string) (v : LessonProgress) (p : Progress) : Progress :=
  match p with
  | [] => [(k, v)]
  | (k', v') :: rest =>
      if String.eqb k k' then (k, v) :: rest else (k', v') :: set_property k v rest
  end.

(** [p[k]]: an own property, an inherited one, or [undefined]. *)
Inductive property : Type :=
| Own (entry : LessonProgress)
| Inherited
| Absent.

Definition get_property (p : Progress) (k : string) : property :=
  match own_property k p with
  | Some entry => Own entry
  | None => if Js.mem k Object_prototype then Inherited else Absent
  end.

Definition TypeError_includes : thrown :=
  JsError "TypeError" "Cannot read properties of undefined (reading 'includes')".

Section ProgressStore.
Context {World : Type} {host : Host World} {store : Store World}.

(** A call of the host that may change it, and may throw. *)
Definition effect {A} (f : World -> (thrown + A) * World) : M World A :=
  fun w =>
    let '(r, w1) := f w in
    match r with
    | inl e => ((Throw e, w1), [])
    | inr a => ((Ret a, w1), [])
    end.

(** [console.error]: the model keeps one list of printed lines. *)
Definition console_error (line : string) : M World unit := console_log line.

Definition getProgressPath : string :=
  let homeDir := homedir in
  let configDir := Path.join homeDir ".tutor-terminal" in
  Path.join configDir "progress.json".

Definition loadProgress : M World Progress :=
  let progressPath := getProgressPath in
  try_catch
    (content <- read (fun w => fs_readFile w progressPath) ;;
     match JSON_parse content with
     | inl e => throw e
     | inr p => ret p
     end)
    (fun _ => ret []).

Definition saveProgress (progress : Progress) : M World unit :=
  let progressPath := getProgressPath in
  let configDir := Path.dirname progressPath in
  try_catch
    (effect (fun w => fs_mkdir w configDir) ;;;
     effect (fun w => fs_writeFile w progressPath (JSON_stringify progress)))
    (fun error => console_error ("Failed to save progress: " ++ inspect error)).

Definition markStepComplete (lessonId stepId : string) : M World unit :=
  progress <- loadProgress ;;
  progress <- match get_property progress lessonId with
              | Absent =>
                  now <- read (fun w => inr (Date_toISOString w)) ;;
                  ret (set_property lessonId (mkLessonProgress [] now) progress)
              | _ => ret progress
              end ;;
  match get_property progress lessonId with
  | Own entry =>
      let steps :=
        if Js.mem stepId (completedSteps entry) then completedSteps entry
        else (completedSteps entry ++ [stepId])%list in
      now <- read (fun w => inr (Date_toISOString w)) ;;
      saveProgress (set_property lessonId (mkLessonProgress steps now) progress)
  | _ => throw TypeError_includes
  end.

Definition isStepComplete (lessonId stepId : string) : M World bool :=
  progress <- loadProgress ;;
  match get_property progress lessonId with
  | Own entry => ret (Js.mem stepId (completedSteps entry))
  | Inherited => throw TypeError_includes
  | Absent => ret false
  end.

(** What [loadProgress] returns in a world. *)
Definition loaded (w : World) : Progress :=
  match fs_readFile w getProgressPath with
  | inl _ => []
  | inr content =>
      match JSON_parse content with
      | inl _ => []
      | inr p => p
      end
  end.

End ProgressStore.

(** The steps recorded for a lesson. *)
Definition steps_of (p : Progress) (lessonId : string) : list string :=
  match own_property lessonId p with
  | Some entry => completedSteps entry
  | None => []
  end.

(** The progress [markStepComplete] saves: the step appended to the steps of
    the lesson unless it is among them, and the time set. *)
Definition marked (p : Progress) (lessonId stepId now : string) : Progress :=
  let steps := steps_of p lessonId in
  set_property lessonId
    (mkLessonProgress (if Js.mem stepId steps then steps else (steps ++ [stepId])%list) now)
    p.

(** A store for examples: the progress file is the only file, the codec
    writes one line per lesson, and the clock stands still. *)
Module Notebook.

Record World : Type := mkWorld { file : option string; writable : bool }.

Definition stringify (p : Progress) : string :=
  Js.join (String Js.LF "")
    (map (fun e => fst e ++ "|" ++ lastUpdated (snd e) ++ "|"
                   ++ Js.join "," (completedSteps (snd e))) p).

Definition parse_line (line : string) : option (string * LessonProgress) :=
  match Js.split "|"%char line with
  | [l; t; steps] =>
      Some (l, mkLessonProgress
                 (if String.eqb steps "" then [] else Js.split ","%char steps) t)
  | _ => None
  end.

Fixpoint parse_lines (lines : list string) : option Progress :=
  match lines with
  | [] => Some []
  | line :: rest =>
      match parse_line line, parse_lines rest with
      | Some e, Some p => Some (e :: p)
      | _, _ => None
      end
  end.

Definition parse (text : string) : thrown + Progress :=
  if String.eqb text "" then inr []
  else match parse_lines (Js.split Js.LF text) with
       | Some p => inr p
       | None => inl (JsError "SyntaxError" "Unexpected token")
       end.

Definition readFile (w : World) (p : string) : thrown + string :=
  match file w with
  | Some text => inr text
  | None => inl (TestHost.ENOENT "open" p)
  end.

Definition writeFile (w : World) (p text : string) : (thrown + unit) * World :=
  if writable w then (inr tt, mkWorld (Some text) true)
  else (inl (JsError "Error" "EACCES: permission denied, open"), w).

Definition host : Host World :=
  {| DEBUG := false
   ; fs_readdir := fun _ p => inl (TestHost.ENOENT "scandir" p)
   ; fs_stat := fun _ p => inl (TestHost.ENOENT "stat" p)
   ; fs_access := fun _ p => inl (TestHost.ENOENT "access" p)
   ; fs_readFile := readFile
   ; execa := fun _ _ w => (inr TestHost.not_a_repository, w) |}.

Definition store : Store World :=
  {| homedir := "/home/me"
   ; Date_toISOString := fun _ => "2024-01-01T00:00:00.000Z"
   ; JSON_parse := parse
   ; JSON_stringify := stringify
   ; fs_mkdir := fun w _ => (inr tt, w)
   ; fs_writeFile := writeFile
   ; inspect := thrown_to_string |}.

(** A first run, and a run after one step of one lesson. *)
Definition first_run : World := mkWorld None true.
Definition one_step : World :=
  mkWorld (Some "git-basics|2023-12-31T00:00:00.000Z|init") true.

End Notebook.

(* ================================================================== *)
(** ** The steps of the normalizer, in the words of the specification *)
(* ================================================================== *)

(** [y] is [x] with its carriage returns struck out. *)
Inductive CRs_stripped : string -> string -> Prop :=
| stripped_end : CRs_stripped "" ""
| stripped_CR (x y : string) :
    CRs_stripped x y -> CRs_stripped (String Js.CR x) y
| stripped_other (c : ascii) (x y : string) :
    c <> Js.CR -> CRs_stripped x y -> CRs_stripped (String c x) (String c y).

(** [y] is [x] with every backslash replaced by a forward slash: at every
    index the code unit of [x], a slash where [x] has a backslash. *)
Definition backslashes_replaced (x y : string) : Prop :=
  forall i, String.get i y
            = option_map (fun c => if Ascii.eqb c Js.bslash then Js.slash else c)
                         (String.get i x).

(** A run of [n] slashes. *)
Fixpoint slashes (n : nat) : string :=
  match n with
  | 0 => EmptyString
  | S k => String Js.slash (slashes k)
  end.

(** [s] is [b] without its leading dot-slash: the dot and the whole run of
    slashes after it, once; a string that does not begin with dot-slash is
    left as it is. *)
Definition dot_slash_stripped (b s : string) : Prop :=
  (exists n, b = String Js.dot (slashes (S n) ++ s)
             /\ String.get 0 s <> Some Js.slash)
  \/ (Js.starts_dot_slash b = false /\ s = b).

Fixpoint all_ws (s : string) : bool :=
  match s with
  | EmptyString => true
  | String c r => Js.is_ws c && all_ws r
  end.

(** [u] is [t] without the white space around it. *)
Definition trimmed (t u : string) : Prop :=
  exists a b, t = a ++ u ++ b /\ all_ws a = true /\ all_ws b = true
              /\ head_ws u = false /\ last_ws u = false.

(* ================================================================== *)
(** ** How a subprocess ends, and what [execa] makes of it *)
(* ================================================================== *)

Inductive ending : Type :=
| Exited (code : Z)   (* the subprocess ran to its end *)
| TimedOut            (* it was killed after the 20000 ms *)
| NotSpawned.         (* it could not be started *)

(** What the promise of [execa] resolves with: the exit code when the
    subprocess gave one, and the output captured.  With [reject: false], as
    [executeCommand] calls it, [execa] resolves in this way also for a
    subprocess that failed. *)
Definition resolves_with (e : ending) (out err : string) : thrown + ExecaReturn :=
  inr (mkExecaReturn (match e with Exited z => Some z | _ => None end) out err).

(* ================================================================== *)
(** ** The git logs one evaluation asks for *)
(* ================================================================== *)

(** A computation that leaves one world as it found it. *)
Definition keeps_at {World A : Type} (w : World) (m : M World A) : Prop :=
  snd (run m w) = w.

(** The paths whose git log [file-committed] may ask for in a world: the
    path resolved on disk, and the tracked entries that equal it once
    lowercased.  The other kinds ask for none. *)
Definition log_targets {World : Type} {host : Host World}
           (v : Validation) (cwd : string) (w : World) : list string :=
  if String.eqb (vtype v) "file-committed" then
    match file v with
    | Some f =>
        match dir_hits w (directory_of cwd f) (expected_base f) with
        | [actualBase] =>
            resolved_path f actualBase
            :: match entries_of (fst (execa "git ls-files -z" cwd w)) with
               | Some tracked => case_hits (resolved_path f actualBase) tracked
               | None => []
               end
        | _ => []
        end
    | None => []
    end
  else [].

(* ================================================================== *)
(** ** More example directories *)
(* ================================================================== *)

Module Stages.
Import TestHost.

Definition no_commits_yet : thrown + ExecaReturn :=
  inr (mkExecaReturn (Some 128%Z) ""
         "fatal: your current branch 'main' does not have any commits yet").


(** [README.md] staged, not committed. *)
Definition staged : World :=
  mkWorld [("/w", Folder); ("/w/.git", Folder); ("/w/README.md", RegularFile "hello")]
          [ ("git ls-files -z", ok (nul_terminated ["README.md"]))
          ; (git_log_of "README.md", no_commits_yet)
          ; ("git diff --cached --name-only -z", ok (nul_terminated ["README.md"])) ].

(** A file whose name begins with a space, and one whose name holds a
    backslash. *)
Definition padded : World :=
  mkWorld [("/w", Folder); ("/w/ readme.md", RegularFile "hello")] [].
Definition backslashed : World :=
  mkWorld [("/w", Folder); ("/w/a\b.txt", RegularFile "hello")] [].

(** [yes] prints until it is killed at the timeout. *)
Definition endless : World :=
  mkWorld [("/w", Folder)] [("yes", resolves_with TimedOut "y" "")].

End Stages.

(* ================================================================== *)
(** ** The string functions *)
(* ================================================================== *)

#[local] Existing Instance TestHost.host.
#[local] Arguments Ascii.eqb : simpl never.
#[local] Arguments String.eqb : simpl never.

Section StringFacts.

Lemma occurs_smap_out (f : ascii -> ascii) (c : ascii) (s : string) :
  (forall d, f d <> c) -> Js.occurs c (Js.smap f s) = false.
Proof.
  intros Hf. induction s as [|d r IH]; simpl; [reflexivity|].
  rewrite IH, orb_false_r. apply Ascii.eqb_neq. intro E. apply (Hf d). now symmetry.
Qed.

Lemma occurs_sfilter_out (c : ascii) (s : string) :
  Js.occurs c (Js.sfilter (fun d => negb (Ascii.eqb d c)) s) = false.
Proof.
  induction s as [|d r IH]; simpl; [reflexivity|].
  destruct (Ascii.eqb d c) eqn:E; simpl; [exact IH|].
  rewrite IH, orb_false_r, Ascii.eqb_sym. exact E.
Qed.

Lemma occurs_sdrop_while (c : ascii) (f : ascii -> bool) (s : string) :
  Js.occurs c s = false -> Js.occurs c (Js.sdrop_while f s) = false.
Proof.
  induction s as [|d r IH]; simpl; [trivial|].
  intros H. apply orb_false_elim in H as [H1 H2].
  destruct (f d); simpl; [auto|]. now rewrite H1, H2.
Qed.

Lemma occurs_trimEnd (c : ascii) (s : string) :
  Js.occurs c s = false -> Js.occurs c (Js.trimEnd s) = false.
Proof.
  induction s as [|d r IH]; simpl; [trivial|].
  intros H. apply orb_false_elim in H as [H1 H2]. specialize (IH H2).
  destruct (Js.trimEnd r) eqn:E.
  - destruct (Js.is_ws d); simpl; [reflexivity|]. now rewrite H1.
  - simpl in *. now rewrite H1, IH.
Qed.

Lemma occurs_trim (c : ascii) (s : string) :
  Js.occurs c s = false -> Js.occurs c (Js.trim s) = false.
Proof.
  intros H. unfold Js.trim, Js.trimStart.
  now apply occurs_trimEnd, occurs_sdrop_while.
Qed.

Lemma occurs_strip_dot_slashes (c : ascii) (s : string) :
  Js.occurs c s = false -> Js.occurs c (Js.strip_dot_slashes s) = false.
Proof.
  destruct s as [|d [|sl r]]; simpl; trivial.
  intros H. destruct (Ascii.eqb d Js.dot && Ascii.eqb sl Js.slash); simpl; [|exact H].
  apply occurs_sdrop_while.
  apply orb_false_elim in H as [_ H]. now apply orb_false_elim in H as [_ H].
Qed.

Lemma smap_id_out (c e : ascii) (s : string) :
  Js.occurs c s = false ->
  Js.smap (fun d => if Ascii.eqb d c then e else d) s = s.
Proof.
  induction s as [|d r IH]; simpl; [trivial|].
  intros H. apply orb_false_elim in H as [H1 H2].
  rewrite Ascii.eqb_sym, H1. now rewrite IH.
Qed.

Lemma sfilter_id_out (c : ascii) (s : string) :
  Js.occurs c s = false ->
  Js.sfilter (fun d => negb (Ascii.eqb d c)) s = s.
Proof.
  induction s as [|d r IH]; simpl; [trivial|].
  intros H. apply orb_false_elim in H as [H1 H2].
  rewrite Ascii.eqb_sym, H1. simpl. now rewrite IH.
Qed.

Lemma trimEnd_length (s : string) : String.length (Js.trimEnd s) <= String.length s.
Proof.
  induction s as [|d r IH]; simpl; [lia|].
  destruct (Js.trimEnd r); [destruct (Js.is_ws d)|]; simpl in *; lia.
Qed.

Lemma sdrop_while_length (f : ascii -> bool) (s : string) :
  String.length (Js.sdrop_while f s) <= String.length s.
Proof.
  induction s as [|d r IH]; simpl; [lia|]. destruct (f d); simpl; lia.
Qed.

Lemma trim_length (s : string) : String.length (Js.trim s) <= String.length s.
Proof.
  unfold Js.trim, Js.trimStart.
  etransitivity; [apply trimEnd_length | apply sdrop_while_length].
Qed.

Lemma trimEnd_cons (d : ascii) (s : string) :
  Js.trimEnd (String d s) =
  match Js.trimEnd s with
  | EmptyString => if Js.is_ws d then EmptyString else String d EmptyString
  | r' => String d r'
  end.
Proof. reflexivity. Qed.

Lemma trimEnd_idem (s : string) : Js.trimEnd (Js.trimEnd s) = Js.trimEnd s.
Proof.
  induction s as [|d r IH]; [reflexivity|].
  rewrite trimEnd_cons.
  destruct (Js.trimEnd r) as [|d' r'] eqn:E.
  - destruct (Js.is_ws d) eqn:W; simpl; [reflexivity|]. now rewrite W.
  - rewrite trimEnd_cons, IH. reflexivity.
Qed.

Lemma trimEnd_head (s : string) : head_ws s = false -> head_ws (Js.trimEnd s) = false.
Proof.
  destruct s as [|d r]; simpl; [trivial|].
  intros W. destruct (Js.trimEnd r); [rewrite W|]; simpl; trivial.
Qed.

Lemma trimStart_head (s : string) : head_ws (Js.trimStart s) = false.
Proof.
  unfold Js.trimStart. induction s as [|d r IH]; simpl; [reflexivity|].
  destruct (Js.is_ws d) eqn:W; simpl; [exact IH | exact W].
Qed.

Lemma trimStart_id (s : string) : head_ws s = false -> Js.trimStart s = s.
Proof.
  destruct s as [|d r]; simpl; [trivial|]. intros W.
  unfold Js.trimStart. simpl. now rewrite W.
Qed.

Lemma trimEnd_last (s : string) : last_ws (Js.trimEnd s) = false.
Proof.
  induction s as [|d r IH]; simpl; [reflexivity|].
  destruct (Js.trimEnd r) as [|d' r'] eqn:E.
  - destruct (Js.is_ws d) eqn:W; simpl; trivial.
  - exact IH.
Qed.

Lemma trimEnd_id (s : string) : last_ws s = false -> Js.trimEnd s = s.
Proof.
  induction s as [|d r IH]; simpl; [trivial|].
  destruct r as [|d' r'].
  - intros W. simpl. now rewrite W.
  - intros W. rewrite (IH W). reflexivity.
Qed.

Lemma trim_head (s : string) : head_ws (Js.trim s) = false.
Proof. apply trimEnd_head, trimStart_head. Qed.

Lemma trim_last (s : string) : last_ws (Js.trim s) = false.
Proof. apply trimEnd_last. Qed.

Lemma trim_id (s : string) :
  head_ws s = false -> last_ws s = false -> Js.trim s = s.
Proof.
  intros H1 H2. unfold Js.trim. rewrite (trimStart_id _ H1). now apply trimEnd_id.
Qed.

Lemma trim_idem (s : string) : Js.trim (Js.trim s) = Js.trim s.
Proof. apply trim_id; [apply trim_head | apply trim_last]. Qed.

Lemma strip_dot_slashes_id (s : string) :
  Js.starts_dot_slash s = false -> Js.strip_dot_slashes s = s.
Proof.
  destruct s as [|d [|sl r]]; simpl; trivial. now intros ->.
Qed.

Lemma strip_dot_slashes_shorter (s : string) :
  Js.starts_dot_slash s = true ->
  String.length (Js.strip_dot_slashes s) < String.length s.
Proof.
  destruct s as [|d [|sl r]]; simpl; try discriminate.
  intros ->. pose proof (sdrop_while_length (Ascii.eqb Js.slash) r). lia.
Qed.

(** Each step of the normalizer is the only string its description allows. *)
Lemma remove_CRs_stripped (x : string) : CRs_stripped x (Js.remove_CRs x).
Proof.
  unfold Js.remove_CRs. induction x as [|c r IH]; simpl; [constructor|].
  destruct (Ascii.eqb c Js.CR) eqn:E; simpl.
  - apply Ascii.eqb_eq in E. subst c. now constructor.
  - apply Ascii.eqb_neq in E. now constructor.
Qed.

Lemma CRs_stripped_unique (x y : string) :
  CRs_stripped x y -> y = Js.remove_CRs x.
Proof.
  unfold Js.remove_CRs. induction 1 as [|x y _ IH|c x y N _ IH]; simpl.
  - reflexivity.
  - exact IH.
  - apply Ascii.eqb_neq in N. rewrite N. simpl. now rewrite IH.
Qed.

Lemma replace_backslashes_replaced (x : string) :
  backslashes_replaced x (Js.replace_backslashes x).
Proof.
  unfold backslashes_replaced, Js.replace_backslashes.
  induction x as [|c r IH]; intros i; simpl; [reflexivity|].
  destruct i; [reflexivity | apply IH].
Qed.

Lemma backslashes_replaced_unique (x y : string) :
  backslashes_replaced x y -> y = Js.replace_backslashes x.
Proof.
  unfold backslashes_replaced, Js.replace_backslashes.
  revert y. induction x as [|c r IH]; intros y H.
  - specialize (H 0). destruct y; [reflexivity | discriminate H].
  - destruct y as [|d y'].
    + specialize (H 0). discriminate H.
    + pose proof (H 0) as H0. simpl in H0. injection H0 as ->.
      simpl. f_equal. apply IH. intros i. exact (H (S i)).
Qed.

Lemma sdrop_slashes (n : nat) (s : string) :
  String.get 0 s <> Some Js.slash ->
  Js.sdrop_while (Ascii.eqb Js.slash) (slashes n ++ s) = s.
Proof.
  intros H. induction n as [|n IH]; simpl.
  - destruct s as [|c r]; [reflexivity|]. simpl.
    destruct (Ascii.eqb Js.slash c) eqn:E; [|reflexivity].
    apply Ascii.eqb_eq in E. subst c. now contradiction H.
  - exact IH.
Qed.

Lemma slashes_then_rest (r : string) :
  exists n, r = slashes n ++ Js.sdrop_while (Ascii.eqb Js.slash) r
            /\ String.get 0 (Js.sdrop_while (Ascii.eqb Js.slash) r) <> Some Js.slash.
Proof.
  induction r as [|c r (n & E & N)]; simpl.
  - exists 0. split; [reflexivity | discriminate].
  - destruct (Ascii.eqb Js.slash c) eqn:S.
    + apply Ascii.eqb_eq in S. subst c. exists (S n). split; [|exact N].
      simpl. now rewrite <- E.
    + exists 0. split; [reflexivity|]. simpl. intros [= ->].
      now rewrite Ascii.eqb_refl in S.
Qed.

Lemma strip_dot_slashes_stripped (b : string) :
  dot_slash_stripped b (Js.strip_dot_slashes b).
Proof.
  destruct (Js.starts_dot_slash b) eqn:S.
  - left. destruct b as [|d [|sl r]]; simpl in S |- *; try discriminate.
    rewrite S. apply andb_prop in S as [D L].
    apply Ascii.eqb_eq in D, L. subst d sl.
    destruct (slashes_then_rest r) as (n & E & N). exists n. split; [|exact N].
    simpl. now rewrite <- E.
  - right. split; [exact S | now apply strip_dot_slashes_id].
Qed.

Lemma dot_slash_stripped_unique (b s : string) :
  dot_slash_stripped b s -> s = Js.strip_dot_slashes b.
Proof.
  intros [(n & -> & N) | (S & ->)].
  - simpl. now rewrite sdrop_slashes.
  - now rewrite strip_dot_slashes_id.
Qed.

Lemma trimStart_split (t : string) :
  exists a, t = a ++ Js.trimStart t /\ all_ws a = true.
Proof.
  unfold Js.trimStart. induction t as [|c r (a & E & W)]; simpl.
  - now exists "".
  - destruct (Js.is_ws c) eqn:I.
    + exists (String c a). simpl. rewrite I, W. split; [now rewrite <- E | reflexivity].
    + now exists "".
Qed.

Lemma trimEnd_split (t : string) :
  exists b, t = Js.trimEnd t ++ b /\ all_ws b = true.
Proof.
  induction t as [|c r (b & E & W)]; simpl.
  - now exists "".
  - destruct (Js.trimEnd r) as [|d r'] eqn:T.
    + simpl in E. subst r. destruct (Js.is_ws c) eqn:I.
      * exists (String c b). simpl. now rewrite I, W.
      * now exists b.
    + exists b. split; [|exact W]. simpl. now rewrite E at 1.
Qed.

Lemma trim_trimmed (t : string) : trimmed t (Js.trim t).
Proof.
  destruct (trimStart_split t) as (a & Ea & Wa).
  destruct (trimEnd_split (Js.trimStart t)) as (b & Eb & Wb).
  exists a, b. repeat split; trivial.
  - fold (Js.trim t) in Eb. now rewrite <- Eb.
  - apply trim_head.
  - apply trim_last.
Qed.

Lemma trimStart_ws (a v : string) :
  all_ws a = true -> Js.trimStart (a ++ v) = Js.trimStart v.
Proof.
  unfold Js.trimStart. induction a as [|c a IH]; simpl; [reflexivity|].
  intros H. apply andb_prop in H as [I W]. rewrite I. now apply IH.
Qed.

Lemma trimEnd_all_ws (b : string) : all_ws b = true -> Js.trimEnd b = "".
Proof.
  induction b as [|c b IH]; simpl; [reflexivity|].
  intros H. apply andb_prop in H as [I W]. now rewrite (IH W), I.
Qed.

Lemma trimEnd_ws (u b : string) :
  all_ws b = true -> Js.trimEnd (u ++ b) = Js.trimEnd u.
Proof.
  intros W. induction u as [|c u IH]; simpl.
  - now apply trimEnd_all_ws.
  - now rewrite IH.
Qed.

Lemma trimmed_unique (t u : string) : trimmed t u -> u = Js.trim t.
Proof.
  intros (a & b & -> & Wa & Wb & Hh & Hl). unfold Js.trim.
  rewrite trimStart_ws by exact Wa.
  destruct u as [|c u'].
  - simpl. unfold Js.trimStart.
    assert (E : Js.sdrop_while Js.is_ws b = "").
    { clear -Wb. induction b as [|c b IH]; simpl; [reflexivity|].
      simpl in Wb. apply andb_prop in Wb as [I W]. rewrite I. now apply IH. }
    now rewrite E.
  - rewrite trimStart_id by exact Hh.
    rewrite trimEnd_ws by exact Wb. symmetry. now apply trimEnd_id.
Qed.

Lemma length_app (a b : string) :
  String.length (a ++ b) = String.length a + String.length b.
Proof. induction a as [|c a IH]; simpl; [reflexivity | now rewrite IH]. Qed.

(** Trimming that changes a string makes it shorter. *)
Lemma trim_shorter (t : string) :
  Js.trim t <> t -> String.length (Js.trim t) < String.length t.
Proof.
  intros N. destruct (trim_trimmed t) as (a & b & E & _).
  assert (L : String.length t
              = String.length a + (String.length (Js.trim t) + String.length b)).
  { rewrite E at 1. now rewrite !length_app. }
  destruct a as [|x a]; [|simpl in L; lia].
  destruct b as [|y b]; [|simpl in L; lia].
  exfalso. apply N. simpl in E. rewrite E at 2.
  clear. induction (Js.trim t) as [|c r IH]; simpl; [reflexivity | now rewrite <- IH].
Qed.

End StringFacts.

(* ================================================================== *)
(** ** The path normalizer *)
(* ================================================================== *)

Section Normalizer.

Lemma replace_backslashes_clean (s : string) :
  Js.occurs Js.bslash (Js.replace_backslashes s) = false.
Proof.
  apply occurs_smap_out. intros d.
  destruct (Ascii.eqb d Js.bslash) eqn:E; [discriminate|].
  now apply Ascii.eqb_neq.
Qed.

Lemma replace_backslashes_keeps_out (c : ascii) (s : string) :
  c <> Js.slash -> Js.occurs c s = false ->
  Js.occurs c (Js.replace_backslashes s) = false.
Proof.
  intros Hc. unfold Js.replace_backslashes.
  induction s as [|d r IH]; simpl; [trivial|].
  intros H. apply orb_false_elim in H as [H1 H2]. rewrite (IH H2), orb_false_r.
  destruct (Ascii.eqb d Js.bslash); [now apply Ascii.eqb_neq | exact H1].
Qed.

Lemma replace_backslashes_remove_CRs (s : string) :
  Js.remove_CRs (Js.replace_backslashes s) = Js.replace_backslashes (Js.remove_CRs s).
Proof.
  unfold Js.remove_CRs, Js.replace_backslashes.
  induction s as [|d r IH]; simpl; [reflexivity|].
  destruct (Ascii.eqb d Js.bslash) eqn:B.
  - apply Ascii.eqb_eq in B. subst d. simpl. now rewrite IH.
  - destruct (Ascii.eqb d Js.CR) eqn:C; simpl; rewrite ?B, IH; reflexivity.
Qed.

Lemma normalizeRel_clean (s : string) :
  Js.occurs Js.bslash (normalizeRel s) = false
  /\ head_ws (normalizeRel s) = false /\ last_ws (normalizeRel s) = false.
Proof.
  unfold normalizeRel. repeat split; [|apply trim_head|apply trim_last].
  apply occurs_trim, occurs_strip_dot_slashes, replace_backslashes_clean.
Qed.

Lemma normalizeRel_keeps_out (c : ascii) (s : string) :
  c <> Js.slash -> Js.occurs c s = false -> Js.occurs c (normalizeRel s) = false.
Proof.
  intros Hc H. unfold normalizeRel.
  now apply occurs_trim, occurs_strip_dot_slashes, replace_backslashes_keeps_out.
Qed.

(** On a string the first two steps leave alone, a further pass changes
    something exactly when a dot-slash is still in front. *)
Lemma normalizeRel_fixed (y : string) :
  Js.occurs Js.bslash y = false -> head_ws y = false -> last_ws y = false ->
  (normalizeRel y = y <-> Js.starts_dot_slash y = false).
Proof.
  intros B Hh Hl. unfold normalizeRel, Js.replace_backslashes.
  rewrite (smap_id_out _ _ _ B). split.
  - intros E. destruct (Js.starts_dot_slash y) eqn:S; [|reflexivity].
    exfalso. pose proof (strip_dot_slashes_shorter _ S) as L.
    pose proof (trim_length (Js.strip_dot_slashes y)) as T.
    rewrite E in T. lia.
  - intros S. rewrite (strip_dot_slashes_id _ S). now apply trim_id.
Qed.

Lemma normalizeRel_id (y : string) :
  Js.occurs Js.bslash y = false -> head_ws y = false -> last_ws y = false ->
  Js.starts_dot_slash y = false -> normalizeRel y = y.
Proof. intros B Hh Hl S. now apply normalizeRel_fixed. Qed.

Lemma normalizeGitEntry_no_CR (s : string) :
  Js.occurs Js.CR (normalizeGitEntry s) = false.
Proof.
  unfold normalizeGitEntry. apply normalizeRel_keeps_out; [discriminate|].
  apply occurs_sfilter_out.
Qed.

Lemma normalizeGitEntry_as_Rel (y : string) :
  Js.occurs Js.CR y = false -> normalizeGitEntry y = normalizeRel y.
Proof.
  intros C. unfold normalizeGitEntry, Js.remove_CRs. now rewrite sfilter_id_out.
Qed.

(** C3, as amended.  For every input the normalizer returns, and what it
    returns is the one string that is got by these steps in this order: the
    carriage returns are struck out ([normalizeGitEntry] only), every
    backslash is replaced by a forward slash, one leading dot-slash goes
    (the dot and the whole run of slashes after it, when the string begins
    with it at that point; not a second dot-slash segment, and not one that
    follows leading white space), and the white space around the rest is
    trimmed.  So the result has no backslash, no carriage return and no
    white space at either end, and a backslash is treated as the slash it
    becomes.  A second pass gives the same string exactly when the first
    result does not itself begin with dot-slash. *)
Theorem normalizer_contract (x : string) :
  (forall y, y = normalizeGitEntry x
             <-> exists c b s, CRs_stripped x c /\ backslashes_replaced c b
                               /\ dot_slash_stripped b s /\ trimmed s y)
  /\ (forall y, y = normalizeRel x
                <-> exists b s, backslashes_replaced x b
                                /\ dot_slash_stripped b s /\ trimmed s y)
  /\ Js.occurs Js.bslash (normalizeGitEntry x) = false
  /\ Js.occurs Js.CR (normalizeGitEntry x) = false
  /\ head_ws (normalizeGitEntry x) = false
  /\ last_ws (normalizeGitEntry x) = false
  /\ normalizeGitEntry (Js.replace_backslashes x) = normalizeGitEntry x
  /\ normalizeGitEntry ("./" ++ x)
     = Js.trim (Js.sdrop_while (Ascii.eqb Js.slash)
                  (Js.replace_backslashes (Js.remove_CRs x)))
  /\ (normalizeGitEntry (normalizeGitEntry x) = normalizeGitEntry x
      <-> Js.starts_dot_slash (normalizeGitEntry x) = false)
  /\ (normalizeRel (normalizeRel x) = normalizeRel x
      <-> Js.starts_dot_slash (normalizeRel x) = false).
Proof.
  destruct (normalizeRel_clean (Js.remove_CRs x)) as (B & Hh & Hl).
  destruct (normalizeRel_clean x) as (B' & Hh' & Hl').
  pose proof (normalizeGitEntry_no_CR x) as C.
  split; [|split].
  - intros y. split.
    + intros ->. exists (Js.remove_CRs x).
      exists (Js.replace_backslashes (Js.remove_CRs x)).
      exists (Js.strip_dot_slashes (Js.replace_backslashes (Js.remove_CRs x))).
      split; [apply remove_CRs_stripped|].
      split; [apply replace_backslashes_replaced|].
      split; [apply strip_dot_slashes_stripped | apply trim_trimmed].
    + intros (c & b & s & Hc & Hb & Hs & Hy).
      apply CRs_stripped_unique in Hc. apply backslashes_replaced_unique in Hb.
      apply dot_slash_stripped_unique in Hs. apply trimmed_unique in Hy.
      now subst.
  - intros y. split.
    + intros ->. exists (Js.replace_backslashes x).
      exists (Js.strip_dot_slashes (Js.replace_backslashes x)).
      split; [apply replace_backslashes_replaced|].
      split; [apply strip_dot_slashes_stripped | apply trim_trimmed].
    + intros (b & s & Hb & Hs & Hy).
      apply backslashes_replaced_unique in Hb.
      apply dot_slash_stripped_unique in Hs. apply trimmed_unique in Hy.
      now subst.
  - repeat split; try assumption.
    + unfold normalizeGitEntry at 1. rewrite replace_backslashes_remove_CRs.
      unfold normalizeRel, Js.replace_backslashes at 1.
      rewrite (smap_id_out _ _ _ (replace_backslashes_clean _)). reflexivity.
    + rewrite (normalizeGitEntry_as_Rel _ C). now apply normalizeRel_fixed.
    + rewrite (normalizeGitEntry_as_Rel _ C). now apply normalizeRel_fixed.
    + now apply normalizeRel_fixed.
    + now apply normalizeRel_fixed.
Qed.

(** C3, as stated, fails: of two leading dot-slash segments one is left,
    and the second pass removes it; so it is with a dot-slash behind
    leading white space.  [normalizeRel], which the evaluators apply to the
    paths of a descriptor, keeps a carriage return inside the path. *)
Lemma normalizer_not_idempotent :
  normalizeGitEntry "././a" = "./a"
  /\ normalizeGitEntry (normalizeGitEntry "././a") <> normalizeGitEntry "././a"
  /\ normalizeRel (normalizeRel " ./a") <> normalizeRel " ./a"
  /\ normalizeRel " ./a" = "./a"
  /\ Js.occurs Js.CR (normalizeRel (String "a" (String Js.CR "b"))) = true.
Proof. repeat split; vm_compute; discriminate. Qed.

End Normalizer.

(* ================================================================== *)
(** ** Running computations *)
(* ================================================================== *)

Section MonadFacts.
Context {World : Type}.

Lemma run_ret {A} (a : A) (w : World) : run (ret a) w = (Ret a, w).
Proof. reflexivity. Qed.

Lemma run_throw {A} (e : thrown) (w : World) : run (@throw World A e) w = (Throw e, w).
Proof. reflexivity. Qed.

Lemma run_bind {A B} (m : M World A) (f : A -> M World B) (w : World) :
  run (bind m f) w =
  match run m w with
  | (Ret a, w1) => run (f a) w1
  | (Throw e, w1) => (Throw e, w1)
  end.
Proof.
  unfold run, bind. destruct (m w) as [[[a|e] w1] o1]; simpl; [|reflexivity].
  now destruct (f a w1).
Qed.

Lemma run_try_catch {A} (m : M World A) (h : thrown -> M World A) (w : World) :
  run (try_catch m h) w =
  match run m w with
  | (Ret a, w1) => (Ret a, w1)
  | (Throw e, w1) => run (h e) w1
  end.
Proof.
  unfold run, try_catch. destruct (m w) as [[[a|e] w1] o1]; simpl; [reflexivity|].
  now destruct (h e w1).
Qed.

Lemma run_read {A} (q : World -> thrown + A) (w : World) :
  run (read q) w = (match q w with inl e => Throw e | inr a => Ret a end, w).
Proof. unfold run, read. now destruct (q w). Qed.

Lemma silent_ret : silent (@ret World unit tt).
Proof. intro w. reflexivity. Qed.

Lemma silent_console_log (line : string) : silent (@console_log World line).
Proof. intro w. reflexivity. Qed.

Lemma silent_seq (m k : M World unit) : silent m -> silent k -> silent (m ;;; k).
Proof. intros Hm Hk w. now rewrite run_bind, Hm, Hk. Qed.

Lemma silent_when (b : bool) (m : M World unit) : silent m -> silent (when b m).
Proof. intros Hm. destruct b; [exact Hm | apply silent_ret]. Qed.

Lemma run_after_silent {A} (m : M World unit) (k : M World A) (w : World) :
  silent m -> run (m ;;; k) w = run k w.
Proof. intros Hm. now rewrite run_bind, Hm. Qed.

End MonadFacts.

Create HintDb silent.
#[local] Hint Resolve silent_ret silent_console_log silent_seq silent_when : silent.

Ltac quiet := rewrite run_after_silent by auto 10 with silent.

(* ================================================================== *)
(** ** The command executor *)
(* ================================================================== *)

Section Executor.
Context {World : Type} {host : Host World}.

Lemma run_call_execa (command cwd : string) (w : World) :
  run (call_execa command cwd) w =
  (match fst (execa command cwd w) with inl e => Throw e | inr r => Ret r end,
   snd (execa command cwd w)).
Proof.
  unfold run, call_execa. now destruct (execa command cwd w) as [[e|r] w1].
Qed.

(** Whatever is printed, [executeCommand] returns the result made of the
    settlement of [execa], in the world [execa] leaves. *)
Lemma run_executeCommand (command cwd : string) (w : World) :
  run (executeCommand command cwd) w =
  (Ret (execution_result (fst (execa command cwd w))), snd (execa command cwd w)).
Proof.
  unfold executeCommand. quiet.
  rewrite run_try_catch, run_bind, run_call_execa.
  destruct (execa command cwd w) as [[e|r] w1]; simpl; quiet; reflexivity.
Qed.

(** C10, as amended.  [executeCommand] always returns an
    [ExecutionResult] and never throws.  When [execa] resolves, as
    [reject: false] makes it do also for a subprocess that could not be
    spawned or was killed at the timeout, [success] is true exactly when
    the exit code is zero, the captured output is passed on and there is
    no error message: a timeout gives [success = false] with what was
    captured and without message.  Only when the call of [execa] throws
    does the result have [success = false], empty [stdout] and [stderr]
    and an error message, which is not empty unless the message of the
    [Error] thrown is. *)
Theorem executeCommand_never_throws (command cwd : string) (w : World) :
  exists r,
    run (executeCommand command cwd) w = (Ret r, snd (execa command cwd w))
    /\ match fst (execa command cwd w) with
       | inl e =>
           success r = false /\ stdout r = "" /\ stderr r = ""
           /\ error r = Some (message_or "Unknown error" e)
           /\ (message_or "Unknown error" e = "" -> exists n, e = JsError n "")
       | inr res =>
           (success r = true <-> exitCode res = Some 0%Z)
           /\ stdout r = r_stdout res /\ stderr r = r_stderr res
           /\ error r = None
       end
    /\ (forall e out err,
        fst (execa command cwd w) = resolves_with e out err ->
        r = mkExecutionResult
              (match e with Exited z => Z.eqb z 0 | _ => false end) out err None).
Proof.
  exists (execution_result (fst (execa command cwd w))).
  split; [apply run_executeCommand|]. split.
  - destruct (fst (execa command cwd w)) as [e|res]; simpl.
    + repeat split. destruct e as [n m|t]; simpl; [|discriminate].
      intros ->. now exists n.
    + repeat split; try reflexivity.
      * destruct (exitCode res) as [z|]; [|discriminate].
        intros E. apply Z.eqb_eq in E. now subst.
      * intros ->. reflexivity.
  - intros e out err ->. now destruct e.
Qed.

End Executor.

(* ================================================================== *)
(** ** Paths of one component *)
(* ================================================================== *)

Section PathFacts.

Lemma chars_not_slash (s : string) :
  Js.occurs Js.slash s = false ->
  forallb not_slash (list_ascii_of_string s) = true.
Proof.
  induction s as [|d r IH]; simpl; [trivial|].
  intros H. apply orb_false_elim in H as [H1 H2].
  unfold not_slash at 1, Path.is_slash. rewrite Ascii.eqb_sym, H1. simpl. auto.
Qed.

Lemma forallb_rev {A} (g : A -> bool) (l : list A) :
  forallb g l = true -> forallb g (rev l) = true.
Proof.
  induction l as [|a l IH]; simpl; [trivial|].
  intros H. apply andb_prop in H as [H1 H2].
  rewrite forallb_app, (IH H2). simpl. now rewrite H1.
Qed.

Lemma drop_while_none (l : list ascii) :
  forallb not_slash l = true -> Path.drop_while Path.is_slash l = l.
Proof.
  destruct l as [|c l]; simpl; [trivial|].
  intros H. apply andb_prop in H as [H1 _].
  unfold not_slash in H1. now destruct (Path.is_slash c).
Qed.

Lemma drop_while_all (l : list ascii) :
  forallb not_slash l = true ->
  Path.drop_while (fun c => negb (Path.is_slash c)) l = [].
Proof.
  induction l as [|c l IH]; simpl; [trivial|].
  intros H. apply andb_prop in H as [H1 H2].
  unfold not_slash in H1. rewrite H1. auto.
Qed.

Lemma take_while_all (l : list ascii) :
  forallb not_slash l = true ->
  Path.take_while (fun c => negb (Path.is_slash c)) l = l.
Proof.
  induction l as [|c l IH]; simpl; [trivial|].
  intros H. apply andb_prop in H as [H1 H2].
  unfold not_slash in H1. rewrite H1. now rewrite IH.
Qed.

Lemma basename_component (f : string) :
  Js.occurs Js.slash f = false -> Path.basename f = f.
Proof.
  intros H. unfold Path.basename.
  pose proof (forallb_rev _ _ (chars_not_slash _ H)) as R.
  rewrite (drop_while_none _ R), (take_while_all _ R), rev_involutive.
  apply string_of_list_ascii_of_string.
Qed.

Lemma dirname_component (f : string) :
  f <> "" -> Js.occurs Js.slash f = false -> Path.dirname f = ".".
Proof.
  destruct f as [|c0 rest]; [congruence|]. intros _ H. simpl in H.
  apply orb_false_elim in H as [H1 H2]. unfold Path.dirname.
  pose proof (forallb_rev _ _ (chars_not_slash _ H2)) as R.
  rewrite (drop_while_none _ R), (drop_while_all _ R).
  unfold Path.is_slash. now rewrite Ascii.eqb_sym, H1.
Qed.

Lemma split_component (f : string) :
  Js.occurs Js.slash f = false -> Js.split Js.slash f = [f].
Proof.
  induction f as [|d r IH]; simpl; [trivial|].
  intros H. apply orb_false_elim in H as [H1 H2].
  rewrite Ascii.eqb_sym, H1, (IH H2). reflexivity.
Qed.

Lemma chars_app (s t : string) :
  list_ascii_of_string (s ++ t)
  = (list_ascii_of_string s ++ list_ascii_of_string t)%list.
Proof. induction s as [|c s IH]; simpl; [reflexivity | now rewrite IH]. Qed.

Lemma last_is_slash_component (p f : string) :
  f <> "" -> Js.occurs Js.slash f = false -> Path.last_is_slash (p ++ f) = false.
Proof.
  intros N H. unfold Path.last_is_slash.
  rewrite chars_app, rev_app_distr.
  pose proof (forallb_rev _ _ (chars_not_slash _ H)) as R.
  destruct (rev (list_ascii_of_string f)) as [|c l] eqn:E.
  - exfalso. apply N. apply (f_equal (@rev ascii)) in E.
    rewrite rev_involutive in E. simpl in E.
    rewrite <- (string_of_list_ascii_of_string f), E. reflexivity.
  - simpl in *. apply andb_prop in R as [R _].
    unfold not_slash in R. now destruct (Path.is_slash c).
Qed.

(** [path.join('.', name)] is [name]. *)
Lemma join_dot_component (f : string) :
  f <> "" -> f <> "." -> f <> ".." -> Js.occurs Js.slash f = false ->
  Path.join "." f = f.
Proof.
  intros N1 N2 N3 H. unfold Path.join.
  destruct f as [|c r] eqn:Ef; [congruence|]. rewrite <- Ef in *.
  change ("." ++ "/" ++ f) with ("./" ++ f).
  unfold Path.normalize. change ("./" ++ f) with (String "." (String "/" f)).
  change (Path.is_slash ".") with false. cbv iota.
  change (String "." (String "/" f)) with ("./" ++ f).
  rewrite (last_is_slash_component "./" N1 H).
  unfold Path.normalizeString. simpl Js.split.
  rewrite (split_component _ H). simpl.
  apply String.eqb_neq in N1, N2, N3. rewrite N1, N2, N3. simpl.
  rewrite Ef. rewrite <- Ef. reflexivity.
Qed.

End PathFacts.

(* ================================================================== *)
(** ** Case variants *)
(* ================================================================== *)

Section CaseFacts.

Ltac each_char c := destruct c as [[] [] [] [] [] [] [] []].

Lemma lower_char_ws (c : ascii) : Js.is_ws (Js.lower_char c) = Js.is_ws c.
Proof. each_char c; vm_compute; reflexivity. Qed.

Lemma lower_char_slash (c : ascii) :
  Ascii.eqb Js.slash (Js.lower_char c) = Ascii.eqb Js.slash c.
Proof. each_char c; vm_compute; reflexivity. Qed.

Lemma lower_char_bslash (c : ascii) :
  Ascii.eqb Js.bslash (Js.lower_char c) = Ascii.eqb Js.bslash c.
Proof. each_char c; vm_compute; reflexivity. Qed.

Lemma lower_char_dot (c : ascii) : Js.lower_char c = Js.dot -> c = Js.dot.
Proof. each_char c; vm_compute; intros E; solve [reflexivity | discriminate E]. Qed.

Lemma toLowerCase_occurs_slash (s : string) :
  Js.occurs Js.slash (Js.toLowerCase s) = Js.occurs Js.slash s.
Proof.
  unfold Js.toLowerCase.
  induction s as [|c r IH]; simpl; [reflexivity|]. now rewrite lower_char_slash, IH.
Qed.

Lemma toLowerCase_occurs_bslash (s : string) :
  Js.occurs Js.bslash (Js.toLowerCase s) = Js.occurs Js.bslash s.
Proof.
  unfold Js.toLowerCase.
  induction s as [|c r IH]; simpl; [reflexivity|]. now rewrite lower_char_bslash, IH.
Qed.

Lemma toLowerCase_head_ws (s : string) : head_ws (Js.toLowerCase s) = head_ws s.
Proof. destruct s; simpl; [reflexivity | apply lower_char_ws]. Qed.

Lemma toLowerCase_last_ws (s : string) : last_ws (Js.toLowerCase s) = last_ws s.
Proof.
  induction s as [|c r IH]; [reflexivity|].
  destruct r as [|c' r']; [apply lower_char_ws | exact IH].
Qed.

Lemma toLowerCase_empty (s : string) : Js.toLowerCase s = "" -> s = "".
Proof. destruct s; [trivial | discriminate]. Qed.

Lemma toLowerCase_dot (s : string) : Js.toLowerCase s = "." -> s = ".".
Proof.
  destruct s as [|c r]; [discriminate|]. simpl. intros E.
  injection E as Ec Er. apply toLowerCase_empty in Er. apply lower_char_dot in Ec.
  now subst.
Qed.

Lemma toLowerCase_dotdot (s : string) : Js.toLowerCase s = ".." -> s = "..".
Proof.
  destruct s as [|c r]; [discriminate|]. simpl. intros E.
  injection E as Ec Er. apply (toLowerCase_dot r) in Er. apply lower_char_dot in Ec.
  now subst.
Qed.

Lemma file_name_spec (f : string) :
  file_name f = true <->
  f <> "" /\ f <> "." /\ f <> ".."
  /\ Js.occurs Js.slash f = false /\ Js.occurs Js.bslash f = false
  /\ head_ws f = false /\ last_ws f = false.
Proof.
  unfold file_name.
  rewrite !andb_true_iff, !negb_true_iff, !String.eqb_neq. tauto.
Qed.

Lemma case_variant_file_name (f f' : string) :
  case_variant f f' -> file_name f = true -> file_name f' = true.
Proof.
  unfold case_variant. intros V H.
  apply file_name_spec in H as (N1 & N2 & N3 & S & B & Hh & Hl).
  apply file_name_spec. repeat split.
  - intros ->. apply N1. symmetry in V. now apply toLowerCase_empty in V.
  - intros ->. apply N2. symmetry in V. now apply toLowerCase_dot in V.
  - intros ->. apply N3. symmetry in V. now apply toLowerCase_dotdot in V.
  - now rewrite <- toLowerCase_occurs_slash, V, toLowerCase_occurs_slash.
  - now rewrite <- toLowerCase_occurs_bslash, V, toLowerCase_occurs_bslash.
  - now rewrite <- toLowerCase_head_ws, V, toLowerCase_head_ws.
  - now rewrite <- toLowerCase_last_ws, V, toLowerCase_last_ws.
Qed.

(** The normalizer and [path] leave a file name as it is. *)
Lemma file_name_normal (f : string) :
  file_name f = true ->
  normalizeRel f = f /\ Path.basename f = f /\ Path.dirname f = "."
  /\ Path.join "." f = f /\ Js.truthy f = true.
Proof.
  intros H. apply file_name_spec in H as (N1 & N2 & N3 & S & B & Hh & Hl).
  repeat split.
  - apply normalizeRel_id; trivial.
    destruct f as [|d [|sl r]]; simpl in *; trivial.
    apply orb_false_elim in S as [_ S]. apply orb_false_elim in S as [S _].
    rewrite Ascii.eqb_sym in S. rewrite S. apply andb_false_r.
  - now apply basename_component.
  - now apply dirname_component.
  - now apply join_dot_component.
  - unfold Js.truthy. apply negb_true_iff. now apply String.eqb_neq.
Qed.

Lemma toLowerCase_length (s : string) :
  String.length (Js.toLowerCase s) = String.length s.
Proof.
  unfold Js.toLowerCase. induction s as [|c r IH]; simpl; [reflexivity | now rewrite IH].
Qed.

Lemma occurs_app (c : ascii) (a b : string) :
  Js.occurs c (a ++ b) = Js.occurs c a || Js.occurs c b.
Proof.
  induction a as [|d a IH]; simpl; [reflexivity|]. now rewrite IH, orb_assoc.
Qed.

Lemma all_ws_occurs (c : ascii) (a : string) :
  Js.is_ws c = false -> all_ws a = true -> Js.occurs c a = false.
Proof.
  intros N. induction a as [|d a IH]; simpl; [reflexivity|].
  intros H. apply andb_prop in H as [I W]. rewrite (IH W), orb_false_r.
  apply Ascii.eqb_neq. intros ->. congruence.
Qed.

(** A file name with white space put around it is looked up without it. *)
Lemma padded_name_normal (f : string) :
  file_name (Js.trim f) = true ->
  normalizeRel f = Js.trim f /\ expected_base f = Js.trim f.
Proof.
  intros H.
  destruct (file_name_normal _ H) as (Nf & Bf & _).
  apply file_name_spec in H as (_ & _ & _ & S & B & _ & _).
  destruct (trim_trimmed f) as (a & b & E & Wa & Wb & _).
  assert (S' : Js.occurs Js.slash f = false).
  { rewrite E, !occurs_app, S.
    now rewrite (@all_ws_occurs Js.slash a eq_refl Wa),
                (@all_ws_occurs Js.slash b eq_refl Wb). }
  assert (B' : Js.occurs Js.bslash f = false).
  { rewrite E, !occurs_app, B.
    now rewrite (@all_ws_occurs Js.bslash a eq_refl Wa),
                (@all_ws_occurs Js.bslash b eq_refl Wb). }
  assert (R : normalizeRel f = Js.trim f).
  { unfold normalizeRel, Js.replace_backslashes.
    rewrite (smap_id_out _ _ _ B'). rewrite strip_dot_slashes_id; [reflexivity|].
    clear -S'. destruct f as [|d [|sl r]]; simpl in *; trivial.
    apply orb_false_elim in S' as [_ S']. apply orb_false_elim in S' as [S' _].
    rewrite Ascii.eqb_sym in S'. rewrite S'. apply andb_false_r. }
  split; [exact R|]. unfold expected_base. now rewrite R.
Qed.

End CaseFacts.

(* ================================================================== *)
(** ** The directory resolver and [file-exists] *)
(* ================================================================== *)

Section Resolver.
Context {World : Type} {host : Host World}.

Lemma run_getCaseMatches (dirPath targetName : string) (w : World) :
  run (getCaseMatches dirPath targetName) w = (Ret (dir_hits w dirPath targetName), w).
Proof.
  unfold getCaseMatches, dir_hits.
  rewrite run_try_catch, run_bind, run_read.
  now destruct (fs_readdir w dirPath).
Qed.

Lemma run_getActualFilename (dirPath targetName : string) (w : World) :
  run (getActualFilename dirPath targetName) w =
  (match dir_hits w dirPath targetName with
   | [] => Ret None
   | [m] => Ret (Some m)
   | ms => Throw (JsError "Error" (casing_conflict targetName ms))
   end, w).
Proof.
  unfold getActualFilename. rewrite run_bind, run_getCaseMatches.
  now destruct (dir_hits w dirPath targetName) as [|m [|m' ms]].
Qed.

Lemma run_resolve_or_return (dirPath targetName : string) (w : World) :
  run (resolve_or_return dirPath targetName) w =
  (Ret match dir_hits w dirPath targetName with
       | [] => inr None
       | [m] => inr (Some m)
       | ms => inl (verdict false (casing_conflict targetName ms))
       end, w).
Proof.
  unfold resolve_or_return.
  rewrite run_try_catch, run_bind, run_getActualFilename.
  now destruct (dir_hits w dirPath targetName) as [|m [|m' ms]].
Qed.

(** The dispatcher hands on a verdict and turns a throw into one. *)
Lemma run_validateStep (v : Validation) (cwd : string) (w : World) :
  run (validateStep v cwd) w =
  match run (dispatch v cwd) w with
  | (Ret r, w1) => (Ret r, w1)
  | (Throw e, w1) => (Ret (verdict false (message_or "Validation error" e)), w1)
  end.
Proof. unfold validateStep. now rewrite run_try_catch. Qed.

Lemma run_validateFileExists_missing (cwd f : string) (w : World) :
  dir_hits w (directory_of cwd f) (expected_base f) = [] ->
  run (validateFileExists cwd (Some f)) w
  = (Ret (verdict false ("File " ++ f ++ " not found")), w).
Proof.
  intros Hh. unfold validateFileExists, js_normalizeRel.
  rewrite run_bind, run_ret, run_bind, run_resolve_or_return.
  fold (directory_of cwd f) (expected_base f). now rewrite Hh.
Qed.

Lemma run_validateFileExists_conflict (cwd f : string) (w : World) :
  2 <= List.length (dir_hits w (directory_of cwd f) (expected_base f)) ->
  run (validateFileExists cwd (Some f)) w
  = (Ret (verdict false
            (casing_conflict (expected_base f)
               (dir_hits w (directory_of cwd f) (expected_base f)))), w).
Proof.
  intros Hh. unfold validateFileExists, js_normalizeRel.
  rewrite run_bind, run_ret, run_bind, run_resolve_or_return.
  fold (directory_of cwd f) (expected_base f).
  destruct (dir_hits w (directory_of cwd f) (expected_base f)) as [|m [|m' ms]];
    simpl in Hh; try lia. reflexivity.
Qed.

Lemma run_validateFileExists_one (cwd f m : string) (st : Stats) (w : World) :
  dir_hits w (directory_of cwd f) (expected_base f) = [m] ->
  Js.truthy m = true ->
  fs_stat w (Path.join (directory_of cwd f) m) = inr st ->
  exists msg,
    run (validateFileExists cwd (Some f)) w
    = (Ret (verdict_at (isFile st) msg (resolved_path f m)), w)
    /\ (isFile st = true -> msg = "File " ++ f ++ " exists (as " ++ m ++ ")").
Proof.
  intros Hh Ht Hs. unfold validateFileExists, js_normalizeRel.
  rewrite run_bind, run_ret, run_bind, run_resolve_or_return.
  fold (directory_of cwd f) (expected_base f). rewrite Hh.
  unfold present. rewrite Ht, run_bind, run_read, Hs.
  fold (resolved_path f m).
  destruct (isFile st); simpl negb; cbv iota.
  - quiet. rewrite run_ret. eexists. split; [reflexivity|]. reflexivity.
  - rewrite run_ret. eexists. split; [reflexivity|]. discriminate.
Qed.

End Resolver.

(* ================================================================== *)
(** ** What a message names *)
(* ================================================================== *)

Section Includes.

Lemma includes_unfold (hay needle : string) :
  Js.includes hay needle =
  String.prefix needle hay
  || match hay with
     | EmptyString => false
     | String _ r => Js.includes r needle
     end.
Proof. destruct hay; reflexivity. Qed.

Lemma prefix_app (n b : string) : String.prefix n (n ++ b) = true.
Proof.
  induction n as [|c n IH]; [now destruct b | simpl].
  destruct (ascii_dec c c); [exact IH | congruence].
Qed.

Lemma prefix_app_right (n hay b : string) :
  String.prefix n hay = true -> String.prefix n (hay ++ b) = true.
Proof.
  revert hay. induction n as [|c n IH]; intros hay; [now destruct (hay ++ b) | simpl].
  destruct hay as [|d hay]; simpl; [discriminate|].
  destruct (ascii_dec c d); [apply IH | trivial].
Qed.

Lemma includes_self (n b : string) : Js.includes (n ++ b) n = true.
Proof. rewrite includes_unfold, prefix_app. reflexivity. Qed.

Lemma prefix_refl (n : string) : String.prefix n n = true.
Proof.
  induction n as [|c n IH]; simpl; [reflexivity|].
  destruct (ascii_dec c c); [exact IH | congruence].
Qed.

Lemma includes_refl (n : string) : Js.includes n n = true.
Proof. rewrite includes_unfold, prefix_refl. reflexivity. Qed.

Lemma includes_app_left (a hay n : string) :
  Js.includes hay n = true -> Js.includes (a ++ hay) n = true.
Proof.
  intros H. induction a as [|c a IH]; simpl String.append; [exact H|].
  rewrite includes_unfold, IH. apply orb_true_r.
Qed.

Lemma includes_app_right (hay b n : string) :
  Js.includes hay n = true -> Js.includes (hay ++ b) n = true.
Proof.
  induction hay as [|c hay IH]; intros H.
  - rewrite includes_unfold, orb_false_r in H.
    rewrite includes_unfold, (prefix_app_right _ _ b H). reflexivity.
  - rewrite includes_unfold in H. apply orb_prop in H as [H|H].
    + rewrite includes_unfold, (prefix_app_right _ _ b H). reflexivity.
    + simpl String.append. rewrite includes_unfold, (IH H). apply orb_true_r.
Qed.

Lemma includes_join (sep e : string) (l : list string) :
  In e l -> Js.includes (Js.join sep l) e = true.
Proof.
  induction l as [|x l IH]; [contradiction|].
  intros [->|H].
  - destruct l; simpl Js.join.
    + apply includes_refl.
    + apply includes_self.
  - destruct l as [|y l]; [contradiction|].
    change (Js.join sep (x :: y :: l)) with (x ++ sep ++ Js.join sep (y :: l)).
    now apply includes_app_left, includes_app_left, IH.
Qed.

Lemma casing_conflict_names (targetName : string) (matches : list string) :
  names_all (casing_conflict targetName matches) matches.
Proof.
  intros e H. unfold casing_conflict.
  do 3 apply includes_app_left. apply includes_app_right. now apply includes_join.
Qed.

End Includes.

(* ================================================================== *)
(** ** [file-exists]: case tolerance and ambiguity *)
(* ================================================================== *)

Section FileExists.
Context {World : Type} {host : Host World}.

Lemma run_check_file_exists (cwd f : string) (w : World) :
  run (validateStep (check "file-exists" f) cwd) w =
  match run (validateFileExists cwd (Some f)) w with
  | (Ret r, w1) => (Ret r, w1)
  | (Throw e, w1) => (Ret (verdict false (message_or "Validation error" e)), w1)
  end.
Proof. now rewrite run_validateStep. Qed.

(** C5, as amended.  For every file name [f] written as the normalizer
    leaves it (one path component, without backslash and without white
    space at either end) and every case variant [f'] of it: when [f'] is
    the only entry of the directory and is a regular file,
    [file-exists { file: f }] passes and the resolved path of the verdict
    is [f'].  The check looks for the normalized name: a file name with
    white space around it is not found there, whatever its case. *)
Theorem file_exists_case_tolerance
        (cwd f f' : string) (st : Stats) (w : World) :
  case_variant f f' ->
  fs_readdir w (directory_of cwd f) = inr [f'] ->
  fs_stat w (Path.join (directory_of cwd f) f') = inr st ->
  isFile st = true ->
  (file_name f = true ->
   run (validateStep (check "file-exists" f) cwd) w
   = (Ret (mkValidationResult true
             ("File " ++ f ++ " exists (as " ++ f' ++ ")") (Some f')), w))
  /\ (file_name (Js.trim f) = true -> Js.trim f <> f ->
      run (validateStep (check "file-exists" f) cwd) w
      = (Ret (verdict false ("File " ++ f ++ " not found")), w)).
Proof.
  intros V Hd Hs Hi. split.
  - intros Hf.
    pose proof (case_variant_file_name V Hf) as Hf'.
    destruct (file_name_normal _ Hf) as (Nf & Bf & Df & _ & _).
    destruct (file_name_normal _ Hf') as (Nf' & _ & _ & Jf' & Tf').
    assert (Hh : dir_hits w (directory_of cwd f) (expected_base f) = [f']).
    { unfold dir_hits. rewrite Hd. unfold expected_base. rewrite Nf, Bf.
      unfold case_hits. simpl. unfold case_variant in V. rewrite V.
      now rewrite String.eqb_refl. }
    destruct (@run_validateFileExists_one _ _ cwd f f' st w Hh Tf' Hs) as (msg & R & Hm).
    rewrite run_check_file_exists, R, Hi, (Hm Hi).
    unfold resolved_path. rewrite Nf, Df, Jf', Nf'. reflexivity.
  - intros Hp Hn.
    destruct (padded_name_normal _ Hp) as (_ & Eb).
    assert (Hh : dir_hits w (directory_of cwd f) (expected_base f) = []).
    { unfold dir_hits. rewrite Hd, Eb. unfold case_hits. simpl.
      unfold case_variant in V. rewrite V.
      destruct (String.eqb _ _) eqn:E; [|reflexivity].
      apply String.eqb_eq in E. apply (f_equal String.length) in E.
      rewrite !toLowerCase_length in E.
      pose proof (trim_shorter Hn). lia. }
    now rewrite run_check_file_exists,
                (@run_validateFileExists_missing _ _ cwd f w Hh).
Qed.

(** C6.  In the directory where [f] is looked up, with the entries that
    equal the expected name once lowercased: two or more of them make
    [file-exists] fail with a message that names them all; none, and an
    unreadable directory has none, makes it fail as not found; exactly one
    is what the resolver returns, whatever its casing, and what the verdict
    reports as the resolved path. *)
Theorem file_exists_resolution (cwd f : string) (w : World) :
  let dir := directory_of cwd f in
  let base := expected_base f in
  let hits := dir_hits w dir base in
  (2 <= List.length hits ->
   exists msg,
     run (validateStep (check "file-exists" f) cwd) w = (Ret (verdict false msg), w)
     /\ msg = casing_conflict base hits /\ names_all msg hits)
  /\ (hits = [] ->
      run (validateStep (check "file-exists" f) cwd) w
      = (Ret (verdict false ("File " ++ f ++ " not found")), w))
  /\ ((exists e, fs_readdir w dir = inl e) -> hits = [])
  /\ (forall m, hits = [m] ->
      run (getActualFilename dir base) w = (Ret (Some m), w)
      /\ forall st, m <> "" -> fs_stat w (Path.join dir m) = inr st ->
         exists msg,
           run (validateStep (check "file-exists" f) cwd) w
           = (Ret (mkValidationResult (isFile st) msg (Some (resolved_path f m))), w)).
Proof.
  intros dir base hits. repeat split.
  - intros H2. exists (casing_conflict base hits).
    rewrite run_check_file_exists, (@run_validateFileExists_conflict _ _ cwd f w H2).
    repeat split. apply casing_conflict_names.
  - intros H0. now rewrite run_check_file_exists, (@run_validateFileExists_missing _ _ cwd f w H0).
  - intros [e He]. unfold hits, dir_hits. now rewrite He.
  - rewrite run_getActualFilename. fold hits. now rewrite H.
  - intros st Hm Hs.
    assert (Ht : Js.truthy m = true).
    { unfold Js.truthy. apply negb_true_iff. now apply String.eqb_neq. }
    destruct (@run_validateFileExists_one _ _ cwd f m st w H Ht Hs) as (msg & R & _).
    exists msg. now rewrite run_check_file_exists, R.
Qed.

End FileExists.

(* ================================================================== *)
(** ** The git entry readers and [file-staged] *)
(* ================================================================== *)

Section Staged.
Context {World : Type} {host : Host World}.

Lemma run_getStagedEntries (cwd : string) (w : World) :
  run (getStagedEntries cwd) w =
  (Ret (entries_of (fst (execa "git diff --cached --name-only -z" cwd w))),
   snd (execa "git diff --cached --name-only -z" cwd w)).
Proof.
  unfold getStagedEntries, entries_of. rewrite run_bind, run_executeCommand.
  now destruct (success _).
Qed.

Lemma run_getTrackedEntries (cwd : string) (w : World) :
  run (getTrackedEntries cwd) w =
  (Ret (entries_of (fst (execa "git ls-files -z" cwd w))),
   snd (execa "git ls-files -z" cwd w)).
Proof.
  unfold getTrackedEntries, entries_of. rewrite run_bind, run_executeCommand.
  now destruct (success _).
Qed.

Lemma unique_match_spec (l : list string) (target : string) :
  uniqueCaseInsensitiveMatch l target =
  match case_hits target l with
  | [] => mkCaseMatch None false
  | [h] => mkCaseMatch (Some h) false
  | _ => mkCaseMatch None true
  end.
Proof. reflexivity. Qed.

Lemma mem_In (x : string) (l : list string) : Js.mem x l = true <-> In x l.
Proof.
  unfold Js.mem. rewrite existsb_exists. split.
  - intros (y & Hy & E). apply String.eqb_eq in E. now subst.
  - intros H. exists x. split; [exact H | apply String.eqb_refl].
Qed.

Lemma mem_case_hits (x : string) (l : list string) :
  Js.mem x l = true -> In x (case_hits x l).
Proof.
  intros H. apply mem_In in H. unfold case_hits. apply filter_In.
  split; [exact H | apply String.eqb_refl].
Qed.

(** A staged entry that differs from the target by case only, and is the
    only such entry, makes [file-staged] pass under its own name. *)
Lemma run_validateFileStaged_variant
      (cwd f m : string) (staged : list string) (w w' : World) :
  run (getStagedEntries cwd) w = (Ret (Some staged), w') ->
  Js.mem (normalizeGitEntry f) staged = false ->
  case_hits (normalizeGitEntry f) staged = [m] ->
  Js.truthy m = true ->
  run (validateFileStaged cwd (Some f)) w
  = (Ret (verdict true ("File " ++ f ++ " is staged (as " ++ m ++ ")")), w').
Proof.
  intros Hr Hm Hh Ht. unfold validateFileStaged. quiet.
  rewrite run_bind, Hr. unfold js_normalizeGitEntry.
  rewrite run_bind, run_ret, Hm, unique_match_spec, Hh.
  cbn [ambiguous cmatch present]. rewrite Ht. quiet. reflexivity.
Qed.

(** C1, as amended.  When [readme.md] is the only staged entry that equals
    [README.md] once lowercased, [file-staged { file: "README.md" }] passes,
    and its message names the casing that is staged. *)
Theorem file_staged_tolerates_case
        (cwd : string) (staged : list string) (w w' : World) :
  run (getStagedEntries cwd) w = (Ret (Some staged), w') ->
  case_hits "README.md" staged = ["readme.md"] ->
  run (validateStep (check "file-staged" "README.md") cwd) w
  = (Ret (verdict true "File README.md is staged (as readme.md)"), w')
  /\ Js.includes "File README.md is staged (as readme.md)" "readme.md" = true.
Proof.
  intros Hr Hh. split; [|reflexivity].
  rewrite run_validateStep.
  change (dispatch (check "file-staged" "README.md") cwd)
    with (validateFileStaged cwd (Some "README.md")).
  rewrite (@run_validateFileStaged_variant cwd "README.md" "readme.md" staged w w');
    trivial.
  destruct (Js.mem (normalizeGitEntry "README.md") staged) eqn:E; [|reflexivity].
  apply mem_case_hits in E. change (normalizeGitEntry "README.md") with "README.md" in E.
  rewrite Hh in E. destruct E as [E|[]]. discriminate E.
Qed.

End Staged.

(* ================================================================== *)
(** ** [file-committed] *)
(* ================================================================== *)

Section FileCommitted.
Context {World : Type} {host : Host World}.

Lemma entries_of_truthy (a : thrown + ExecaReturn) (l : list string) (e : string) :
  entries_of a = Some l -> In e l -> Js.truthy e = true.
Proof.
  unfold entries_of, parse_entries. destruct (success _); [|discriminate].
  intros [= <-] H. now apply filter_In in H.
Qed.

Lemma staged_truthy (cwd : string) (w w' : World) (l : list string) (e : string) :
  run (getStagedEntries cwd) w = (Ret (Some l), w') -> In e l -> Js.truthy e = true.
Proof.
  rewrite run_getStagedEntries. intros [= E _] H. eapply entries_of_truthy; eassumption.
Qed.


Lemma case_hits_one_In (target m : string) (l : list string) :
  case_hits target l = [m] -> In m l.
Proof.
  intros H. assert (I : In m (case_hits target l)) by (rewrite H; now left).
  unfold case_hits in I. now apply filter_In in I.
Qed.

Variables (cwd f actualBase : string) (st : Stats) (w : World).
Variable trackedAnswer : thrown + ExecaReturn.

(** The file is on disk, under one name, and is a regular file. *)
Hypothesis on_disk : dir_hits w (directory_of cwd f) (expected_base f) = [actualBase].
Hypothesis named : actualBase <> "".
Hypothesis stat_ok : fs_stat w (Path.join (directory_of cwd f) actualBase) = inr st.
Hypothesis regular : isFile st = true.
(** What the shell answers to the listing of the tracked entries, a query
    that changes nothing. *)
Hypothesis tracked_answer : execa "git ls-files -z" cwd w = (trackedAnswer, w).

Let tracked : option (list string) := entries_of trackedAnswer.







End FileCommitted.

(* ================================================================== *)
(** ** [git-initialized] *)
(* ================================================================== *)

Section GitInitialized.
Context {World : Type} {host : Host World}.

(** C8, as amended.  The check passes exactly when [.git] under the working
    directory can be accessed, whatever kind of entry it is, and fails with
    the hint to run [git init] otherwise. *)
Theorem git_initialized_is_access (cwd : string) (w : World) :
  run (validateStep (bare "git-initialized") cwd) w
  = (Ret match fs_access w (Path.join cwd ".git") with
         | inr _ => verdict true "Git repository initialized successfully"
         | inl _ => verdict false "Git repository not found. Try: git init"
         end, w).
Proof.
  rewrite run_validateStep.
  change (dispatch (bare "git-initialized") cwd) with (validateGitInitialized cwd).
  unfold validateGitInitialized. rewrite run_try_catch, run_bind, run_read.
  now destruct (fs_access w (Path.join cwd ".git")).
Qed.

End GitInitialized.

(** C8, as stated, fails: a regular file named [.git] is not a directory,
    and the check passes. *)
Lemma git_initialized_passes_on_file :
  fs_stat Examples.dot_git_file "/w/.git" = inr (mkStats true false)
  /\ run (validateStep (bare "git-initialized") "/w") Examples.dot_git_file
     = (Ret (verdict true "Git repository initialized successfully"),
        Examples.dot_git_file).
Proof. split; reflexivity. Qed.

(* ================================================================== *)
(** ** The dispatcher *)
(* ================================================================== *)

Section Dispatcher.
Context {World : Type} {host : Host World}.

Lemma validateStep_returns (v : Validation) (cwd : string) (w : World) :
  exists r w', run (validateStep v cwd) w = (Ret r, w').
Proof.
  rewrite run_validateStep.
  destruct (run (dispatch v cwd) w) as [[r|e] w1]; eauto.
Qed.

Lemma unknown_kind (t : string) :
  Js.mem t known_kinds = false ->
  forall k, In k known_kinds -> String.eqb t k = false.
Proof.
  intros H k Hk. destruct (String.eqb t k) eqn:E; [|reflexivity].
  apply String.eqb_eq in E. subst k. apply mem_In in Hk. congruence.
Qed.

Lemma dispatch_unknown (v : Validation) (cwd : string) :
  Js.mem (vtype v) known_kinds = false ->
  dispatch v cwd = ret (verdict false ("Unknown validation type: " ++ vtype v)).
Proof.
  intros H. pose proof (unknown_kind _ H) as U. unfold dispatch.
  rewrite !U; [reflexivity | unfold known_kinds; simpl; tauto ..].
Qed.

Lemma run_validateFileStaged_undefined (v : Validation) (cwd : string) (w : World) :
  vtype v = "file-staged" -> file v = None ->
  exists r w', run (validateStep v cwd) w = (Ret r, w') /\ passed r = false.
Proof.
  destruct v as [t fl fls br ms ct]. simpl. intros -> ->.
  rewrite run_validateStep.
  change (dispatch (mkValidation "file-staged" None fls br ms ct) cwd)
    with (validateFileStaged cwd None).
  unfold validateFileStaged. quiet. rewrite run_bind, run_getStagedEntries.
  destruct (entries_of _); rewrite ?run_bind, ?run_ret; simpl; eauto.
Qed.

Lemma run_validateFilesStaged_undefined (v : Validation) (cwd : string) (w : World) :
  vtype v = "files-staged" -> files v = None ->
  exists r w', run (validateStep v cwd) w = (Ret r, w') /\ passed r = false.
Proof.
  destruct v as [t fl fls br ms ct]. simpl. intros -> ->.
  rewrite run_validateStep.
  change (dispatch (mkValidation "files-staged" fl None br ms ct) cwd)
    with (validateFilesStaged cwd None).
  unfold validateFilesStaged. rewrite run_bind, run_getStagedEntries.
  destruct (entries_of _); rewrite ?run_ret, ?run_throw; simpl; eauto.
Qed.

(** C4, as amended.  [validateStep] never throws: it returns a verdict for
    every descriptor.  A kind the dispatcher has no case for gives the
    failed verdict [Unknown validation type: kind].  A descriptor without
    its path gives a failed verdict too, whose message is the text of the
    run-time [TypeError] for [file-exists], [files-exist] and
    [file-committed], and [Failed to read undefined] for [file-contains];
    for [file-staged] and [files-staged] the verdict is failed. *)
Theorem validateStep_fails_closed (v : Validation) (cwd : string) (w : World) :
  (exists r w', run (validateStep v cwd) w = (Ret r, w'))
  /\ (Js.mem (vtype v) known_kinds = false ->
      run (validateStep v cwd) w
      = (Ret (verdict false ("Unknown validation type: " ++ vtype v)), w))
  /\ (vtype v = "file-exists" \/ vtype v = "file-committed" -> file v = None ->
      run (validateStep v cwd) w
      = (Ret (verdict false "Cannot read properties of undefined (reading 'replace')"), w))
  /\ (vtype v = "files-exist" -> files v = None ->
      run (validateStep v cwd) w
      = (Ret (verdict false "files is not iterable"), w))
  /\ (vtype v = "file-contains" -> file v = None ->
      run (validateStep v cwd) w
      = (Ret (verdict false "Failed to read undefined"), w))
  /\ (vtype v = "file-staged" -> file v = None ->
      exists r w', run (validateStep v cwd) w = (Ret r, w') /\ passed r = false)
  /\ (vtype v = "files-staged" -> files v = None ->
      exists r w', run (validateStep v cwd) w = (Ret r, w') /\ passed r = false).
Proof.
  repeat apply conj.
  - apply validateStep_returns.
  - intros H. now rewrite run_validateStep, (dispatch_unknown v cwd H).
  - destruct v as [t fl fls br ms ct]. simpl. intros [-> | ->] ->; reflexivity.
  - destruct v as [t fl fls br ms ct]. simpl. intros -> ->. reflexivity.
  - destruct v as [t fl fls br ms ct]. simpl. intros -> ->. reflexivity.
  - apply run_validateFileStaged_undefined.
  - apply run_validateFilesStaged_undefined.
Qed.

End Dispatcher.

(** C4, as stated, fails: for [file-exists] without [file] the message of
    the verdict is the text of a [TypeError], which speaks neither of an
    unknown or malformed check nor of the missing field; and [file-contains]
    without [content] is evaluated with the word [undefined], and passes on
    a file that holds it. *)
Lemma missing_field_not_reported :
  (forall r w',
      run (validateStep (bare "file-exists") "/w") Examples.fresh = (Ret r, w') ->
      message r = "Cannot read properties of undefined (reading 'replace')"
      /\ message r <> "Unknown validation type: file-exists"
      /\ Js.includes (message r) "nknown" = false
      /\ Js.includes (message r) "alformed" = false
      /\ Js.includes (message r) "file" = false)
  /\ run (validateStep (check "file-contains" "notes.txt") "/w") Examples.notes
     = (Ret (verdict true "File notes.txt contains expected content"), Examples.notes).
Proof.
  split; [|reflexivity].
  intros r w' E. vm_compute in E. injection E as <- _.
  repeat split; vm_compute; discriminate.
Qed.

(* ================================================================== *)
(** ** The commands the engine issues *)
(* ================================================================== *)

Section Frame.
Context {World : Type} {host : Host World}.

Lemma keeps_ret {A} (a : A) : keeps_world (@ret World A a).
Proof. intro w. reflexivity. Qed.

Lemma keeps_throw {A} (e : thrown) : keeps_world (@throw World A e).
Proof. intro w. reflexivity. Qed.

Lemma keeps_console_log (line : string) : keeps_world (@console_log World line).
Proof. intro w. reflexivity. Qed.

Lemma keeps_read {A} (q : World -> thrown + A) : keeps_world (read q).
Proof. intro w. rewrite run_read. reflexivity. Qed.

Lemma keeps_bind {A B} (m : M World A) (k : A -> M World B) :
  keeps_world m -> (forall a, keeps_world (k a)) -> keeps_world (bind m k).
Proof.
  intros Hm Hk w. rewrite run_bind. specialize (Hm w).
  destruct (run m w) as [[a|e] w1]; simpl in Hm; subst w1; [apply Hk | reflexivity].
Qed.

Lemma keeps_try_catch {A} (m : M World A) (h : thrown -> M World A) :
  keeps_world m -> (forall e, keeps_world (h e)) -> keeps_world (try_catch m h).
Proof.
  intros Hm Hh w. rewrite run_try_catch. specialize (Hm w).
  destruct (run m w) as [[a|e] w1]; simpl in Hm; subst w1; [reflexivity | apply Hh].
Qed.

Lemma keeps_when (b : bool) (m : M World unit) :
  keeps_world m -> keeps_world (when b m).
Proof. intros Hm. destruct b; [exact Hm | apply keeps_ret]. Qed.

Lemma keeps_log_each (lines : list string) : keeps_world (@log_each World lines).
Proof.
  induction lines as [|l rest IH]; [apply keeps_ret|].
  apply keeps_bind; [apply keeps_console_log | intros _; exact IH].
Qed.

Lemma engine_command_git_log (target : string) :
  engine_command (git_log_of target) = true.
Proof.
  unfold engine_command, git_log_of. rewrite prefix_app. apply orb_true_r.
Qed.

Ltac keeps_step :=
  first
    [ apply keeps_ret | apply keeps_throw | apply keeps_console_log
    | apply keeps_read | apply keeps_log_each
    | apply keeps_when | apply keeps_try_catch | apply keeps_bind
    | match goal with
      | |- forall _, _ => intro
      | |- keeps_world (match ?x with _ => _ end) => destruct x
      | |- keeps_world (if ?b then _ else _) => destruct b
      end ].

Ltac keeps := repeat keeps_step.

(** What reads the file system, or only computes, changes nothing. *)
Lemma keeps_resolve_or_return (dirAbs expectedBase : string) :
  keeps_world (resolve_or_return dirAbs expectedBase).
Proof. unfold resolve_or_return, getActualFilename, getCaseMatches. keeps. Qed.

Lemma keeps_filesExist_loop (cwd : string) (todo : list string) (acc : FilesExistAcc) :
  keeps_world (filesExist_loop cwd todo acc).
Proof.
  revert acc. induction todo as [|file rest IH]; intros acc; simpl; [apply keeps_ret|].
  apply keeps_bind; [apply keeps_resolve_or_return|].
  intros [early|actualBase]; [apply keeps_ret|].
  destruct (present actualBase); [|apply IH].
  apply keeps_bind; [apply keeps_read|]. intros st.
  destruct (negb (isFile st)); [apply IH|].
  destruct (negb (String.eqb _ _)); apply IH.
Qed.

Lemma keeps_filesStaged_loop (stagedFiles todo unstaged : list string) :
  keeps_world (@filesStaged_loop World stagedFiles todo unstaged).
Proof.
  revert unstaged. induction todo as [|f rest IH]; intros unstaged; simpl;
    [apply keeps_ret|].
  destruct (Js.mem _ _); [apply IH|].
  destruct (ambiguous _); [apply keeps_ret|].
  destruct (present _); [|apply IH].
  apply keeps_bind; [keeps | intros _; apply IH].
Qed.

(** The commit target is the resolved path or a tracked entry that equals
    it once lowercased. *)
Lemma reconcile_tracked_target
      (tracked : option (list string)) (file : option string) (r t : string) :
  reconcile_tracked tracked file r = inr t ->
  In t (r :: match tracked with Some l => case_hits r l | None => [] end).
Proof.
  destruct tracked as [l|]; simpl; [|intros [= <-]; now left].
  destruct (Js.mem r l); [intros [= <-]; now left|].
  rewrite unique_match_spec.
  destruct (case_hits r l) as [|m [|m' ms]]; cbn [ambiguous cmatch present].
  - intros [= <-]. now left.
  - destruct (Js.truthy m); intros [= <-]; [right; now left | now left].
  - discriminate.
Qed.

(** From here on: one working directory and one world, in which the fixed
    queries change nothing. *)
Variables (cwd : string) (w : World).
Hypothesis fixed_read_only :
  forall q, In q fixed_queries -> snd (execa q cwd w) = w.

Lemma keeps_here {A} (m : M World A) : keeps_world m -> keeps_at w m.
Proof. intros H. apply H. Qed.

Lemma keeps_at_bind {A B} (m : M World A) (k : A -> M World B) :
  keeps_at w m -> (forall a, keeps_at w (k a)) -> keeps_at w (bind m k).
Proof.
  unfold keeps_at. intros Hm Hk. rewrite run_bind.
  destruct (run m w) as [[a|e] w1]; simpl in Hm; subst w1; [apply Hk | reflexivity].
Qed.

Lemma keeps_at_try_catch {A} (m : M World A) (h : thrown -> M World A) :
  keeps_at w m -> (forall e, keeps_at w (h e)) -> keeps_at w (try_catch m h).
Proof.
  unfold keeps_at. intros Hm Hh. rewrite run_try_catch.
  destruct (run m w) as [[a|e] w1]; simpl in Hm; subst w1; [reflexivity | apply Hh].
Qed.

Lemma keeps_at_query (q : string) :
  In q fixed_queries -> keeps_at w (executeCommand q cwd).
Proof.
  intros H. unfold keeps_at. rewrite run_executeCommand. simpl.
  now apply fixed_read_only.
Qed.

Ltac stays_step :=
  first
    [ apply keeps_here; solve [keeps]
    | apply keeps_at_query; solve [simpl; tauto]
    | apply keeps_at_try_catch | apply keeps_at_bind
    | match goal with
      | |- forall _, _ => intro
      | |- keeps_at _ (match ?x with _ => _ end) => destruct x
      | |- keeps_at _ (if ?b then _ else _) => destruct b
      end ].

Ltac stays := repeat stays_step.

Lemma keeps_at_getStagedEntries : keeps_at w (getStagedEntries cwd).
Proof. unfold getStagedEntries. stays. Qed.

Lemma keeps_at_getTrackedEntries : keeps_at w (getTrackedEntries cwd).
Proof. unfold getTrackedEntries. stays. Qed.

(** [file-committed] asks for the git log of one path, the commit target. *)
Lemma keeps_at_validateFileCommitted (fl : option string) :
  (forall t, In t (log_targets (mkValidation "file-committed" fl None None None None)
                     cwd w) ->
             snd (execa (git_log_of t) cwd w) = w) ->
  keeps_at w (validateFileCommitted cwd fl).
Proof.
  intros L. destruct fl as [f|]; [|apply keeps_here; apply keeps_throw].
  unfold log_targets in L. simpl in L.
  unfold keeps_at, validateFileCommitted, js_normalizeRel.
  rewrite run_bind, run_ret, run_bind, run_resolve_or_return.
  fold (directory_of cwd f) (expected_base f).
  change (String.eqb "file-committed" "file-committed") with true in L.
  destruct (dir_hits w (directory_of cwd f) (expected_base f)) as [|m [|m' ms]];
    try reflexivity.
  unfold present. destruct (Js.truthy m); [|reflexivity].
  apply keeps_at_bind; [apply keeps_here, keeps_read|]. intros st.
  destruct (negb (isFile st)); [reflexivity|].
  fold (resolved_path f m).
  unfold keeps_at. rewrite run_bind, run_getTrackedEntries.
  rewrite (@fixed_read_only "git ls-files -z") by (simpl; tauto).
  destruct (reconcile_tracked _ _ _) as [early|commitTarget] eqn:R; [reflexivity|].
  apply reconcile_tracked_target in R.
  rewrite run_bind, run_executeCommand, (L _ R).
  destruct (success _ && _).
  - apply keeps_here. keeps.
  - apply keeps_at_bind; [apply keeps_at_getStagedEntries|].
    intros staged. apply keeps_here. keeps.
Qed.

Lemma keeps_at_dispatch (v : Validation) :
  (forall t, In t (log_targets v cwd w) -> snd (execa (git_log_of t) cwd w) = w) ->
  keeps_at w (dispatch v cwd).
Proof.
  intros L. unfold dispatch.
  destruct (String.eqb (vtype v) "file-committed") eqn:K.
  - assert (L' : forall t,
               In t (log_targets (mkValidation "file-committed" (file v)
                                    None None None None) cwd w) ->
               snd (execa (git_log_of t) cwd w) = w).
    { intros t H. apply L. unfold log_targets in *. now rewrite K. }
    pose proof (@keeps_at_validateFileCommitted (file v) L') as C.
    apply String.eqb_eq in K. rewrite K. exact C.
  - repeat match goal with
           | |- keeps_at _ (if ?b then _ else _) => destruct b
           end.
    + unfold validateGitInitialized. stays.
    + unfold validateFileExists, js_normalizeRel.
      apply keeps_at_bind; [stays|]. intros rel.
      apply keeps_at_bind; [apply keeps_here, keeps_resolve_or_return|]. stays.
    + unfold validateFilesExist. destruct (files v); [|apply keeps_here, keeps_throw].
      apply keeps_at_bind; [apply keeps_here, keeps_filesExist_loop|]. stays.
    + unfold validateFileStaged, js_normalizeGitEntry.
      apply keeps_at_bind; [stays|]. intros _.
      apply keeps_at_bind; [apply keeps_at_getStagedEntries|]. stays.
    + unfold validateFilesStaged.
      apply keeps_at_bind; [apply keeps_at_getStagedEntries|].
      intros [staged|]; [|stays].
      destruct (files v); [|apply keeps_here, keeps_throw].
      apply keeps_at_bind; [apply keeps_here, keeps_filesStaged_loop|]. stays.
    + unfold validateCommitExists. stays.
    + unfold validateBranchExists. stays.
    + unfold validateBranchActive. stays.
    + unfold validateFileContains, js_normalizeRel. stays.
    + apply keeps_here, keeps_ret.
Qed.

(** Every command line the engine hands to the shell is one of the five
    fixed queries or the git log of the commit target: when those change
    nothing in the world at hand, an evaluation leaves it as it found it,
    whatever the descriptor. *)
Lemma validateStep_keeps_world (v : Validation) :
  (forall t, In t (log_targets v cwd w) -> snd (execa (git_log_of t) cwd w) = w) ->
  keeps_at w (validateStep v cwd).
Proof.
  intros L. unfold validateStep.
  apply keeps_at_try_catch; [now apply keeps_at_dispatch | intro; apply keeps_here, keeps_ret].
Qed.

End Frame.

(* ================================================================== *)
(** ** Evaluations on the example directories *)
(* ================================================================== *)

(** C1, as stated, fails: with [readme.md] staged and [README.md] not, the
    verdict is a pass. *)
Lemma file_staged_passes_on_case_variant :
  run (getStagedEntries "/w") Examples.lower_readme
  = (Ret (Some ["readme.md"]), Examples.lower_readme)
  /\ ~ In "README.md" ["readme.md"]
  /\ run (validateStep (check "file-staged" "README.md") "/w") Examples.lower_readme
     = (Ret (verdict true "File README.md is staged (as readme.md)"),
        Examples.lower_readme)
  /\ ~ (exists r w',
          run (validateStep (check "file-staged" "README.md") "/w") Examples.lower_readme
          = (Ret r, w') /\ passed r = false).
Proof.
  repeat split.
  - intros [E|[]]. discriminate E.
  - intros (r & w' & E & P). vm_compute in E. injection E as <- _. discriminate P.
Qed.

(** C2 at the failing input: only [readme.md] is on disk, a regular file
    that holds the expected text.  [file-contains] for [README.md] asks
    [fs.stat] for the expected casing, and fails without a warning, where
    [file-exists] finds the entry and passes under its actual name. *)
Lemma file_contains_misses_case_variant :
  fs_readdir Examples.lower_readme "/w" = inr ["readme.md"]
  /\ fs_readFile Examples.lower_readme "/w/readme.md" = inr "hello"
  /\ validateStep (mkValidation "file-contains" (Some "README.md") None None None
                     (Some "hello")) "/w" Examples.lower_readme
     = ((Ret (verdict false "Failed to read README.md"), Examples.lower_readme), [])
  /\ validateStep (check "file-exists" "README.md") "/w" Examples.lower_readme
     = ((Ret (verdict_at true "File README.md exists (as readme.md)" "readme.md"),
         Examples.lower_readme),
        ["Note: File exists as 'readme.md' instead of 'README.md'"]).
Proof. repeat split. Qed.

(** C9 at the failing input: the working directory holds a regular file
    whose name is a command substitution.  [file-committed] for that name
    puts it, unescaped, between the double quotes of the command line it
    hands to the shell; the shell runs the substitution, and a file that was
    not there before is there afterwards. *)
Lemma file_committed_runs_substitution :
  TestHost.touched (git_log_of "$(touch pwned)") = ["pwned"]
  /\ TestHost.exists_in Examples.hostile_name "/w/pwned" = false
  /\ fst (run (validateStep (check "file-committed" "$(touch pwned)") "/w")
            Examples.hostile_name)
     = Ret (verdict false "Failed to check git status")
  /\ snd (run (validateStep (check "file-committed" "$(touch pwned)") "/w")
            Examples.hostile_name)
     = snd (execa (git_log_of "$(touch pwned)") "/w" Examples.hostile_name)
  /\ TestHost.exists_in
       (snd (run (validateStep (check "file-committed" "$(touch pwned)") "/w")
               Examples.hostile_name)) "/w/pwned" = true.
Proof. repeat split. Qed.

(** [F.txt] and [f.txt] side by side: the verdict names both. *)
Example file_exists_two_casings :
  run (validateStep (check "file-exists" "f.txt") "/w") Examples.two_casings
  = (Ret (verdict false
            "Multiple entries match 'f.txt' with different casing: F.txt, f.txt. Keep only one."),
     Examples.two_casings).
Proof. reflexivity. Qed.

(** The example of C1: [readme.md] staged in [/w]. *)
Lemma file_staged_tolerates_case_witness :
  run (getStagedEntries "/w") Examples.lower_readme
  = (Ret (Some ["readme.md"]), Examples.lower_readme)
  /\ case_hits "README.md" ["readme.md"] = ["readme.md"]
  /\ run (validateStep (check "file-staged" "README.md") "/w") Examples.lower_readme
     = (Ret (verdict true "File README.md is staged (as readme.md)"),
        Examples.lower_readme).
Proof.
  split; [reflexivity|]. split; [reflexivity|].
  apply (@file_staged_tolerates_case _ TestHost.host "/w" ["readme.md"]
           Examples.lower_readme Examples.lower_readme); reflexivity.
Defined.

(** The examples of C5: [readme.md] on disk in [/w] and [README.md]
    expected; the same two names with a space in front. *)
Lemma file_exists_case_tolerance_witness :
  file_name "README.md" = true
  /\ case_variant "README.md" "readme.md"
  /\ run (validateStep (check "file-exists" "README.md") "/w") Examples.lower_readme
     = (Ret (mkValidationResult true "File README.md exists (as readme.md)"
               (Some "readme.md")), Examples.lower_readme)
  /\ case_variant " README.md" " readme.md"
  /\ run (validateStep (check "file-exists" " README.md") "/w") Stages.padded
     = (Ret (verdict false "File  README.md not found"), Stages.padded).
Proof.
  split; [reflexivity|]. split; [reflexivity|]. split; [|split; [reflexivity|]].
  - apply (@file_exists_case_tolerance _ TestHost.host "/w" "README.md" "readme.md"
             (mkStats true false) Examples.lower_readme); reflexivity.
  - apply (@file_exists_case_tolerance _ TestHost.host "/w" " README.md" " readme.md"
             (mkStats true false) Stages.padded);
      try reflexivity; discriminate.
Defined.

(** C5, as stated, fails: the check looks for the normalized name, so a
    file whose name begins with a space, or holds a backslash, is not found
    under a case variant of its name, though it is the only entry of the
    directory and a regular file. *)
Lemma file_exists_misses_unnormalized_name :
  (case_variant " README.md" " readme.md"
   /\ fs_readdir Stages.padded "/w" = inr [" readme.md"]
   /\ fs_stat Stages.padded "/w/ readme.md" = inr (mkStats true false)
   /\ run (validateStep (check "file-exists" " README.md") "/w") Stages.padded
      = (Ret (verdict false "File  README.md not found"), Stages.padded))
  /\ (case_variant "A\B.txt" "a\b.txt"
      /\ fs_readdir Stages.backslashed "/w" = inr ["a\b.txt"]
      /\ fs_stat Stages.backslashed "/w/a\b.txt" = inr (mkStats true false)
      /\ run (validateStep (check "file-exists" "A\B.txt") "/w") Stages.backslashed
         = (Ret (verdict false "File A\B.txt not found"), Stages.backslashed)).
Proof. repeat split. Qed.


(** C10, as stated, fails: [yes] is killed at the timeout; [execa], called
    with [reject: false], resolves with what was captured, and the result
    has [success = false], a [stdout] that is not empty and no error
    message. *)
Lemma executeCommand_timeout_without_message :
  fst (execa "yes" "/w" Stages.endless) = resolves_with TimedOut "y" ""
  /\ run (executeCommand "yes" "/w") Stages.endless
     = (Ret (mkExecutionResult false "y" "" None), Stages.endless).
Proof. repeat split. Qed.

(* ================================================================== *)
(** ** The match reconciler *)
(* ================================================================== *)

Section Reconciler.

Lemma case_hits_In (target x : string) (l : list string) :
  In x (case_hits target l) <-> In x l /\ Js.toLowerCase x = Js.toLowerCase target.
Proof. unfold case_hits. now rewrite filter_In, String.eqb_eq. Qed.

Lemma case_hits_perm (target : string) (l l' : list string) :
  Permutation l l' -> Permutation (case_hits target l) (case_hits target l').
Proof.
  unfold case_hits. induction 1 as [|x l l' P IH|x y l|l l' l'' P1 IH1 P2 IH2]; simpl.
  - constructor.
  - destruct (String.eqb _ _); [now constructor | exact IH].
  - destruct (String.eqb (Js.toLowerCase y) _), (String.eqb (Js.toLowerCase x) _);
      try apply Permutation_refl. apply perm_swap.
  - eapply Permutation_trans; eassumption.
Qed.

Lemma case_hits_target (t t' : string) (l : list string) :
  Js.toLowerCase t = Js.toLowerCase t' -> case_hits t l = case_hits t' l.
Proof. unfold case_hits. now intros ->. Qed.

(** X1.  What [uniqueCaseInsensitiveMatch] returns: a match is an entry of
    the list, equal to the target once lowercased, and the only such entry;
    it reports an ambiguity exactly when two or more entries are; it
    returns neither exactly when no entry is.  A match and an ambiguity
    never come together. *)
Theorem uniqueCaseInsensitiveMatch_sound (l : list string) (target : string) :
  (forall m, cmatch (uniqueCaseInsensitiveMatch l target) = Some m ->
     In m l /\ Js.toLowerCase m = Js.toLowerCase target
     /\ case_hits target l = [m]
     /\ ambiguous (uniqueCaseInsensitiveMatch l target) = false)
  /\ (ambiguous (uniqueCaseInsensitiveMatch l target) = true
      <-> 2 <= List.length (case_hits target l))
  /\ (cmatch (uniqueCaseInsensitiveMatch l target) = None
      /\ ambiguous (uniqueCaseInsensitiveMatch l target) = false
      <-> forall x, In x l -> Js.toLowerCase x <> Js.toLowerCase target).
Proof.
  rewrite unique_match_spec.
  assert (Hd : forall a r, case_hits target l = a :: r ->
                           In a l /\ Js.toLowerCase a = Js.toLowerCase target).
  { intros a r E. apply case_hits_In. rewrite E. now left. }
  assert (Hn : case_hits target l = [] ->
               forall x, In x l -> Js.toLowerCase x <> Js.toLowerCase target).
  { intros E x Hx Hl.
    assert (I : In x (case_hits target l)) by now apply case_hits_In.
    rewrite E in I. contradiction. }
  destruct (case_hits target l) as [|a [|b r]] eqn:E; simpl.
  - split; [discriminate|]. split; [split; [discriminate | lia]|].
    split; [intros _; now apply Hn | easy].
  - destruct (Hd a [] eq_refl) as [I1 I2].
    split; [intros m [= <-]; easy|]. split; [split; [discriminate | lia]|].
    split; [intros [H _]; discriminate H | intros H; now elim (H a I1)].
  - destruct (Hd a (b :: r) eq_refl) as [I1 I2].
    split; [discriminate|]. split; [split; [lia | reflexivity]|].
    split; [intros [_ H]; discriminate H | intros H; now elim (H a I1)].
Qed.

(** X2.  The order of the candidate list and the case of the target do not
    matter to [uniqueCaseInsensitiveMatch]. *)
Theorem uniqueCaseInsensitiveMatch_invariant
        (l l' : list string) (target target' : string) :
  Permutation l l' ->
  Js.toLowerCase target = Js.toLowerCase target' ->
  uniqueCaseInsensitiveMatch l target = uniqueCaseInsensitiveMatch l' target'.
Proof.
  intros P T. rewrite !unique_match_spec, <- (@case_hits_target target target' l' T).
  pose proof (@case_hits_perm target l l' P) as Q.
  destruct (case_hits target l) as [|a [|b r]].
  - apply Permutation_nil in Q. now rewrite Q.
  - apply Permutation_length_1_inv in Q. now rewrite Q.
  - pose proof (Permutation_length Q) as L.
    destruct (case_hits target l') as [|a' [|b' r']]; simpl in L; try discriminate.
    reflexivity.
Qed.

End Reconciler.

(** The example of X2: two orders of one index, two casings of one path. *)
Lemma uniqueCaseInsensitiveMatch_invariant_witness :
  uniqueCaseInsensitiveMatch ["a.txt"; "Readme.md"] "README.md"
  = uniqueCaseInsensitiveMatch ["Readme.md"; "a.txt"] "readme.MD".
Proof.
  apply uniqueCaseInsensitiveMatch_invariant; [apply perm_swap | reflexivity].
Defined.

(* ================================================================== *)
(** ** The git entry readers *)
(* ================================================================== *)

Section EntryReaders.
Context {World : Type} {host : Host World}.

Lemma sapp_assoc (a b c : string) : (a ++ b) ++ c = a ++ (b ++ c).
Proof. induction a as [|x a IH]; simpl; [reflexivity | now rewrite IH]. Qed.

Lemma split_nonempty (sep : ascii) (s : string) : Js.split sep s <> [].
Proof.
  destruct s as [|c r]; simpl; [discriminate|].
  destruct (Ascii.eqb c sep); [discriminate|]. now destruct (Js.split sep r).
Qed.

Lemma split_app_sep (sep : ascii) (e r : string) :
  Js.occurs sep e = false ->
  Js.split sep (e ++ String sep r) = e :: Js.split sep r.
Proof.
  induction e as [|c e IH]; simpl.
  - intros _. now rewrite Ascii.eqb_refl.
  - intros H. apply orb_false_elim in H as [H1 H2].
    rewrite Ascii.eqb_sym, H1, (IH H2). reflexivity.
Qed.

Lemma split_pieces (sep : ascii) (s p : string) :
  In p (Js.split sep s) -> Js.occurs sep p = false.
Proof.
  revert p. induction s as [|c r IH]; simpl; intros p.
  - intros [<-|[]]. reflexivity.
  - destruct (Ascii.eqb c sep) eqn:E.
    + intros [<-|H]; [reflexivity | now apply IH].
    + destruct (Js.split sep r) as [|q qs] eqn:S.
      * intros [<-|[]]. simpl. now rewrite Ascii.eqb_sym, E.
      * intros [<-|H].
        -- simpl. rewrite Ascii.eqb_sym, E. simpl. apply IH. now left.
        -- apply IH. now right.
Qed.

Lemma remove_CRs_keeps_out (c : ascii) (s : string) :
  Js.occurs c s = false -> Js.occurs c (Js.remove_CRs s) = false.
Proof.
  unfold Js.remove_CRs. induction s as [|d r IH]; simpl; [trivial|].
  intros H. apply orb_false_elim in H as [H1 H2].
  destruct (negb (Ascii.eqb d Js.CR)); simpl; [rewrite H1|]; auto.
Qed.

Lemma nul_terminated_cons (e : string) (rest : list string) :
  TestHost.nul_terminated (e :: rest)
  = e ++ String Js.NUL (TestHost.nul_terminated rest).
Proof.
  unfold TestHost.nul_terminated. destruct rest as [|e' rest]; simpl; [reflexivity|].
  now rewrite sapp_assoc.
Qed.

Lemma split_nul_terminated (entries : list string) :
  Forall (fun e => Js.occurs Js.NUL e = false) entries ->
  Js.split Js.NUL (TestHost.nul_terminated entries) = (entries ++ [""])%list.
Proof.
  induction 1 as [|e rest He Hrest IH]; [reflexivity|].
  rewrite nul_terminated_cons, split_app_sep by exact He. now rewrite IH.
Qed.

Lemma parse_entries_clean (out e : string) :
  In e (parse_entries out) -> clean_entry e.
Proof.
  unfold parse_entries. rewrite filter_In, in_map_iff.
  intros [(p & <- & Hp) Ht].
  destruct (normalizeRel_clean (Js.remove_CRs p)) as (B & Hh & Hl).
  unfold clean_entry. repeat split; trivial.
  - intros E. unfold Js.truthy in Ht. rewrite E in Ht. discriminate Ht.
  - unfold normalizeGitEntry. apply normalizeRel_keeps_out; [discriminate|].
    apply remove_CRs_keeps_out. eapply split_pieces; exact Hp.
  - apply normalizeGitEntry_no_CR.
Qed.

(** X3.  The listing git prints with [-z], each path followed by a NUL,
    parses back to the same paths in the same order, for paths that are not
    empty, hold no NUL and are in the normalizer's normal form. *)
Theorem parse_entries_round_trip (entries : list string) :
  Forall (fun e => e <> "" /\ Js.occurs Js.NUL e = false /\ normalizeGitEntry e = e)
         entries ->
  parse_entries (TestHost.nul_terminated entries) = entries.
Proof.
  intros H. unfold parse_entries. rewrite split_nul_terminated.
  - rewrite map_app, filter_app. simpl.
    replace (filter Js.truthy (map normalizeGitEntry entries)) with entries;
      [apply app_nil_r|].
    induction H as [|e rest (N & _ & Hn) _ IH]; [reflexivity|].
    simpl. rewrite Hn. unfold Js.truthy at 1.
    apply String.eqb_neq in N. rewrite N. simpl. now rewrite <- IH.
  - eapply Forall_impl; [|exact H]. now intros e (_ & Z & _).
Qed.

(** X4.  [getStagedEntries] and [getTrackedEntries] never throw.  They
    return [null] exactly when their command did not exit with status 0,
    and otherwise a list of entries that are not empty and hold no NUL, no
    backslash, no carriage return and no white space at either end. *)
Theorem git_readers_clean (cwd : string) (w : World) :
  match fst (run (getStagedEntries cwd) w) with
  | Ret (Some l) =>
      exited_zero (fst (execa "git diff --cached --name-only -z" cwd w)) = true
      /\ Forall clean_entry l
  | Ret None =>
      exited_zero (fst (execa "git diff --cached --name-only -z" cwd w)) = false
  | Throw _ => False
  end
  /\ match fst (run (getTrackedEntries cwd) w) with
     | Ret (Some l) =>
         exited_zero (fst (execa "git ls-files -z" cwd w)) = true
         /\ Forall clean_entry l
     | Ret None => exited_zero (fst (execa "git ls-files -z" cwd w)) = false
     | Throw _ => False
     end.
Proof.
  rewrite run_getStagedEntries, run_getTrackedEntries. simpl. unfold entries_of.
  split.
  - destruct (fst (execa "git diff --cached --name-only -z" cwd w)) as [e|r]; simpl;
      [reflexivity|].
    destruct (match exitCode r with Some z => Z.eqb z 0 | None => false end);
      [|reflexivity].
    split; [reflexivity|]. apply Forall_forall. intros e. apply parse_entries_clean.
  - destruct (fst (execa "git ls-files -z" cwd w)) as [e|r]; simpl; [reflexivity|].
    destruct (match exitCode r with Some z => Z.eqb z 0 | None => false end);
      [|reflexivity].
    split; [reflexivity|]. apply Forall_forall. intros e. apply parse_entries_clean.
Qed.

End EntryReaders.

(** The example of X3: a listing of two paths. *)
Lemma parse_entries_round_trip_witness :
  parse_entries (TestHost.nul_terminated ["README.md"; "src/main.c"])
  = ["README.md"; "src/main.c"].
Proof.
  apply parse_entries_round_trip.
  repeat constructor; solve [discriminate | reflexivity].
Defined.

(* ================================================================== *)
(** ** [commit-exists], [branch-exists], [branch-active] *)
(* ================================================================== *)

Section GitChecks.
Context {World : Type} {host : Host World}.

Lemma join_cons_char (sep : string) (c : ascii) (p : string) (ps : list string) :
  Js.join sep (String c p :: ps) = String c (Js.join sep (p :: ps)).
Proof. now destruct ps. Qed.

(** Splitting at a code unit and joining with it gives the string back. *)
Lemma join_split (sep : ascii) (s : string) :
  Js.join (String sep "") (Js.split sep s) = s.
Proof.
  induction s as [|c r IH]; [reflexivity|]. simpl Js.split.
  destruct (Ascii.eqb c sep) eqn:E.
  - apply Ascii.eqb_eq in E. subst c.
    pose proof (split_nonempty sep r) as N.
    destruct (Js.split sep r) as [|q qs]; [congruence|].
    change (Js.join (String sep "") ("" :: q :: qs))
      with (String sep (Js.join (String sep "") (q :: qs))).
    now rewrite IH.
  - destruct (Js.split sep r) as [|q qs] eqn:S.
    + now destruct (split_nonempty sep r).
    + now rewrite join_cons_char, IH.
Qed.

Lemma split_one (sep : ascii) (s : string) :
  Js.occurs sep s = false -> Js.split sep s = [s].
Proof.
  induction s as [|d r IH]; simpl; [trivial|].
  intros H. apply orb_false_elim in H as [H1 H2].
  rewrite Ascii.eqb_sym, H1, (IH H2). reflexivity.
Qed.

(** Joining lines and splitting at the separator gives the lines back. *)
Lemma split_join (sep : ascii) (lines : list string) :
  lines <> [] -> Forall (fun l => Js.occurs sep l = false) lines ->
  Js.split sep (Js.join (String sep "") lines) = lines.
Proof.
  intros N H. induction H as [|l rest Hl Hrest IH]; [congruence|].
  destruct rest as [|l' rest'].
  - simpl. now apply split_one.
  - change (Js.join (String sep "") (l :: l' :: rest'))
      with (l ++ String sep (Js.join (String sep "") (l' :: rest'))).
    rewrite split_app_sep by exact Hl. rewrite IH; [reflexivity | discriminate].
Qed.

Lemma trim_nonblank (s : string) :
  s <> "" -> head_ws s = false -> Js.truthy (Js.trim s) = true.
Proof.
  intros N H. unfold Js.trim. rewrite (trimStart_id _ H).
  destruct s as [|c r]; [congruence|]. simpl in H. rewrite trimEnd_cons.
  destruct (Js.trimEnd r); [rewrite H|]; reflexivity.
Qed.

Lemma head_ws_app (a b : string) : a <> "" -> head_ws (a ++ b) = head_ws a.
Proof. destruct a; [congruence | reflexivity]. Qed.

Lemma run_commit_check (m : option string) (cwd : string) (w : World) :
  run (validateStep (commit_check m) cwd) w
  = match run (validateCommitExists cwd m) w with
    | (Ret r, w1) => (Ret r, w1)
    | (Throw e, w1) => (Ret (verdict false (message_or "Validation error" e)), w1)
    end.
Proof. now rewrite run_validateStep. Qed.

(** X5.  With a latest commit that git prints as an abbreviated hash, a
    space and the subject: [commit-exists] passes when no message or an
    empty one is expected; with a message it passes exactly when the
    subject, trimmed, contains it.  The hash is not searched. *)
Theorem commit_exists_searches_subject
        (cwd hash subject : string) (r : ExecaReturn) (w : World) :
  fst (execa "git log --oneline -1" cwd w) = inr r ->
  exitCode r = Some 0%Z ->
  r_stdout r = hash ++ " " ++ subject ->
  hash <> "" -> head_ws hash = false -> Js.occurs Js.space hash = false ->
  passes (commit_check None) cwd w = true
  /\ passes (commit_check (Some "")) cwd w = true
  /\ forall msg, msg <> "" ->
       passes (commit_check (Some msg)) cwd w = Js.includes (Js.trim subject) msg.
Proof.
  intros Ha Hz Ho N Hh Hs.
  assert (T : Js.truthy (Js.trim (hash ++ " " ++ subject)) = true).
  { apply trim_nonblank; [now destruct hash | now rewrite head_ws_app]. }
  assert (R : forall m,
             run (validateCommitExists cwd m) w
             = run (match present m with
                    | Some message =>
                        if Js.includes (Js.trim subject) message
                        then ret (verdict true "Commit created with expected message")
                        else ret (verdict false
                                    ("Commit message doesn't match. Expected: "
                                     ++ String Js.dquote (message ++ String Js.dquote "")))
                    | None => ret (verdict true "Commit exists")
                    end) (snd (execa "git log --oneline -1" cwd w))).
  { intros m. unfold validateCommitExists.
    rewrite run_bind, run_executeCommand, Ha. simpl execution_result.
    cbn [success stdout]. rewrite Hz, Ho, T. simpl negb. cbv iota.
    change (hash ++ " " ++ subject) with (hash ++ String Js.space subject).
    rewrite split_app_sep by exact Hs. cbn [tl].
    change " " with (String Js.space "") at 1. rewrite join_split. reflexivity. }
  unfold passes. rewrite !run_commit_check, !R. repeat split.
  intros msg Nm. rewrite run_commit_check, R. unfold present, Js.truthy.
  apply String.eqb_neq in Nm. rewrite Nm. simpl negb. cbv iota.
  now destruct (Js.includes (Js.trim subject) msg).
Qed.

Lemma trim_space (s : string) : Js.trim (String Js.space s) = Js.trim s.
Proof. reflexivity. Qed.

Lemma remove_first_absent (c : ascii) (s : string) :
  Js.occurs c s = false -> Js.remove_first c s = s.
Proof.
  induction s as [|d r IH]; simpl; [trivial|].
  intros H. apply orb_false_elim in H as [H1 H2]. now rewrite H1, (IH H2).
Qed.

Lemma branch_line_name (b : bool * string) :
  branch_name (snd b) ->
  Js.trim (Js.remove_first Js.star (branch_line b)) = snd b.
Proof.
  destruct b as [[] n]; intros (_ & S & Hh & Hl); simpl in S, Hh, Hl.
  - change (Js.trim (String Js.space n) = n).
    rewrite trim_space. now apply trim_id.
  - change (Js.trim (Js.remove_first Js.star (String Js.space (String Js.space n))) = n).
    rewrite remove_first_absent by exact S.
    rewrite !trim_space. now apply trim_id.
Qed.

Lemma branch_line_no_LF (b : bool * string) :
  branch_name (snd b) -> Js.occurs Js.LF (branch_line b) = false.
Proof. destruct b as [[] n]; intros (L & _); unfold branch_line; simpl; exact L. Qed.

(** X6.  On the listing [git branch] prints, the current branch after a
    star and the others after two spaces, [branch-exists] passes exactly
    for the names that are listed. *)
Theorem branch_exists_reads_listing
        (cwd b : string) (bs : list (bool * string)) (r : ExecaReturn) (w : World) :
  fst (execa "git branch" cwd w) = inr r ->
  exitCode r = Some 0%Z ->
  r_stdout r = branch_listing bs ->
  Forall (fun l => branch_name (snd l)) bs ->
  b <> "" ->
  passes (branch_check "branch-exists" b) cwd w = Js.mem b (map snd bs).
Proof.
  intros Ha Hz Ho Hb N. unfold passes. rewrite run_validateStep.
  change (dispatch (branch_check "branch-exists" b) cwd)
    with (validateBranchExists cwd (Some b)).
  unfold validateBranchExists.
  rewrite run_bind, run_executeCommand, Ha. simpl execution_result.
  cbn [success stdout]. rewrite Hz, Ho. simpl negb. cbv iota.
  assert (E : map (fun l => Js.trim (Js.remove_first Js.star l))
                  (Js.split Js.LF (branch_listing bs))
              = match bs with [] => [""] | _ => map snd bs end).
  { destruct bs as [|b0 bs0]; [reflexivity|]. unfold branch_listing.
    rewrite split_join.
    - rewrite map_map. apply map_ext_in. intros l Hl. apply branch_line_name.
      rewrite Forall_forall in Hb. now apply Hb.
    - discriminate.
    - apply Forall_forall. intros l Hl. apply in_map_iff in Hl as (x & <- & Hx).
      apply branch_line_no_LF. rewrite Forall_forall in Hb. now apply Hb. }
  rewrite E. unfold mem_opt.
  destruct bs as [|b0 bs0].
  - simpl. apply String.eqb_neq in N. rewrite N. reflexivity.
  - now destruct (Js.mem b (map snd (b0 :: bs0))).
Qed.

(** X7.  A branch check whose descriptor has no [branch] never passes,
    whatever git answers. *)
Theorem branch_checks_need_branch (v : Validation) (cwd : string) (w : World) :
  vtype v = "branch-exists" \/ vtype v = "branch-active" ->
  branch v = None ->
  passes v cwd w = false.
Proof.
  destruct v as [t fl fls br ms ct]. simpl. unfold passes.
  intros [-> | ->] ->; rewrite run_validateStep.
  - change (dispatch (mkValidation "branch-exists" fl fls None ms ct) cwd)
      with (validateBranchExists cwd None).
    unfold validateBranchExists. rewrite run_bind, run_executeCommand.
    now destruct (negb (success _)).
  - change (dispatch (mkValidation "branch-active" fl fls None ms ct) cwd)
      with (validateBranchActive cwd None).
    unfold validateBranchActive. rewrite run_bind, run_executeCommand.
    now destruct (negb (success _)).
Qed.

End GitChecks.

(** The example of X5: the subject of the latest commit is searched. *)
Lemma commit_exists_searches_subject_witness :
  passes (commit_check (Some "README")) "/w" Cases.one_commit = true
  /\ passes (commit_check (Some "1a2b")) "/w" Cases.one_commit = false.
Proof.
  destruct (@commit_exists_searches_subject _ TestHost.host "/w" "1a2b3c4"
              "add README.md" (mkExecaReturn (Some 0%Z) "1a2b3c4 add README.md" "")
              Cases.one_commit eq_refl eq_refl eq_refl)
    as (_ & _ & H); try solve [discriminate | reflexivity].
  split; rewrite H; solve [discriminate | reflexivity].
Defined.

(** The example of X6: the branches [main] and [feature]. *)
Lemma branch_exists_reads_listing_witness :
  passes (branch_check "branch-exists" "feature") "/w" Cases.one_commit = true
  /\ passes (branch_check "branch-exists" "fix") "/w" Cases.one_commit = false.
Proof.
  assert (N : Forall (fun l : bool * string => branch_name (snd l))
                     [(true, "main"); (false, "feature")]).
  { repeat constructor. }
  split.
  - rewrite (@branch_exists_reads_listing _ TestHost.host "/w" "feature"
               [(true, "main"); (false, "feature")]
               (mkExecaReturn (Some 0%Z)
                  (branch_listing [(true, "main"); (false, "feature")]) "")
               Cases.one_commit eq_refl eq_refl eq_refl N);
      solve [discriminate | reflexivity].
  - rewrite (@branch_exists_reads_listing _ TestHost.host "/w" "fix"
               [(true, "main"); (false, "feature")]
               (mkExecaReturn (Some 0%Z)
                  (branch_listing [(true, "main"); (false, "feature")]) "")
               Cases.one_commit eq_refl eq_refl eq_refl N);
      solve [discriminate | reflexivity].
Defined.

(** The example of X7: [{ type: 'branch-exists' }] in a repository. *)
Lemma branch_checks_need_branch_witness :
  passes (bare "branch-exists") "/w" Cases.one_commit = false.
Proof.
  apply (@branch_checks_need_branch _ TestHost.host); [now left | reflexivity].
Defined.

(* ================================================================== *)
(** ** [files-exist] *)
(* ================================================================== *)

Section FilesExist.
Context {World : Type} {host : Host World}.

Lemma silent_log_each (lines : list string) : silent (@log_each World lines).
Proof.
  induction lines as [|l rest IH]; [apply silent_ret|].
  apply silent_seq; [apply silent_console_log | exact IH].
Qed.

Lemma passes_file_exists (cwd f : string) (w : World) :
  passes (check "file-exists" f) cwd w = is_regular (classify w cwd f).
Proof.
  unfold passes, classify. rewrite run_check_file_exists.
  destruct (dir_hits w (directory_of cwd f) (expected_base f)) as [|m [|m' ms]] eqn:E.
  - now rewrite (@run_validateFileExists_missing _ _ cwd f w E).
  - destruct (Js.truthy m) eqn:T.
    + destruct (fs_stat w (Path.join (directory_of cwd f) m)) as [e|st] eqn:S.
      * unfold validateFileExists, js_normalizeRel.
        rewrite run_bind, run_ret, run_bind, run_resolve_or_return.
        fold (directory_of cwd f) (expected_base f). rewrite E.
        unfold present. rewrite T, run_bind, run_read, S. reflexivity.
      * destruct (@run_validateFileExists_one _ _ cwd f m st w E T S) as (msg & R & _).
        rewrite R. simpl. now destruct (isFile st).
    + unfold validateFileExists, js_normalizeRel.
      rewrite run_bind, run_ret, run_bind, run_resolve_or_return.
      fold (directory_of cwd f) (expected_base f). rewrite E.
      unfold present. rewrite T. reflexivity.
  - rewrite (@run_validateFileExists_conflict _ _ cwd f w); [reflexivity|].
    rewrite E. simpl. lia.
Qed.

(** One turn of the loop, by what is found for the path. *)
Lemma run_filesExist_step (cwd file : string) (rest : list string)
      (acc : FilesExistAcc) (w : World) :
  run (filesExist_loop cwd (file :: rest) acc) w =
  match classify w cwd file with
  | Missing =>
      run (filesExist_loop cwd rest
             (mkFilesExistAcc (missing acc ++ [file])%list (wrongType acc) (wrongCase acc))) w
  | Conflict ms =>
      (Ret (inl (verdict false (casing_conflict (expected_base file) ms))), w)
  | StatFails e => (Throw e, w)
  | NotFile a =>
      run (filesExist_loop cwd rest
             (mkFilesExistAcc (missing acc)
                (wrongType acc ++ [(expected_base file, a)])%list (wrongCase acc))) w
  | Regular a =>
      run (filesExist_loop cwd rest
             (if negb (String.eqb a (expected_base file))
              then mkFilesExistAcc (missing acc) (wrongType acc)
                     (wrongCase acc ++ [(expected_base file, a)])%list
              else acc)) w
  end.
Proof.
  cbn [filesExist_loop]. rewrite run_bind, run_resolve_or_return.
  fold (directory_of cwd file) (expected_base file). unfold classify.
  destruct (dir_hits w (directory_of cwd file) (expected_base file)) as [|m [|m' ms]];
    try reflexivity.
  unfold present. destruct (Js.truthy m); [|reflexivity].
  rewrite run_bind, run_read.
  destruct (fs_stat w (Path.join (directory_of cwd file) m)) as [e|st]; [reflexivity|].
  destruct (isFile st); simpl negb; cbv iota; [|reflexivity].
  now destruct (negb (String.eqb m (expected_base file))).
Qed.

Lemma run_filesExist_settled (cwd : string) (todo : list string) (w : World) :
  forallb (fun f => settles (classify w cwd f)) todo = true ->
  forall acc, exists wc,
    run (filesExist_loop cwd todo acc) w
    = (Ret (inr (mkFilesExistAcc
                   (missing acc ++ filter (fun f => is_missing (classify w cwd f)) todo)
                   (wrongType acc ++ folders_of w cwd todo) wc)), w).
Proof.
  induction todo as [|file rest IH]; intros H acc.
  - exists (wrongCase acc). simpl. rewrite !app_nil_r. now destruct acc.
  - simpl in H. apply andb_prop in H as [H1 H2]. rewrite run_filesExist_step.
    unfold folders_of. cbn [flat_map filter].
    destruct (classify w cwd file) as [|ms|e|a|a]; simpl in H1; try discriminate.
    + destruct (IH H2 (mkFilesExistAcc (missing acc ++ [file]) (wrongType acc)
                         (wrongCase acc))) as (wc & R).
      exists wc. rewrite R. cbn [missing wrongType is_missing app].
      now rewrite <- app_assoc.
    + destruct (IH H2 (mkFilesExistAcc (missing acc)
                         (wrongType acc ++ [(expected_base file, a)]) (wrongCase acc)))
        as (wc & R).
      exists wc. rewrite R. cbn [missing wrongType is_missing].
      now rewrite <- app_assoc.
    + destruct (IH H2 (if negb (String.eqb a (expected_base file))
                       then mkFilesExistAcc (missing acc) (wrongType acc)
                              (wrongCase acc ++ [(expected_base file, a)])
                       else acc)) as (wc & R).
      exists wc. rewrite R. cbn [is_missing app].
      now destruct (negb (String.eqb a (expected_base file))).
Qed.

Lemma run_filesExist_aborted (cwd : string) (todo : list string) (w : World) :
  forallb (fun f => settles (classify w cwd f)) todo = false ->
  forall acc,
    (exists v, run (filesExist_loop cwd todo acc) w = (Ret (inl v), w)
               /\ passed v = false)
    \/ (exists e, run (filesExist_loop cwd todo acc) w = (Throw e, w)).
Proof.
  induction todo as [|file rest IH]; intros H acc; [discriminate|].
  simpl in H. rewrite run_filesExist_step.
  destruct (classify w cwd file) as [|ms|e|a|a]; simpl in H; eauto.
Qed.

Lemma run_checks_files_exist (cwd : string) (fs : list string) (w : World) :
  run (validateStep (checks "files-exist" fs) cwd) w =
  match run (validateFilesExist cwd (Some fs)) w with
  | (Ret r, w1) => (Ret r, w1)
  | (Throw e, w1) => (Ret (verdict false (message_or "Validation error" e)), w1)
  end.
Proof. now rewrite run_validateStep. Qed.

(** X9.  When every listed path settles (no two entries differ by case
    only, and [fs.stat] answers), [files-exist] reports the paths found as
    folders, all of them and before anything else; with none, the paths
    that are missing, all of them and in the order given; with none of
    those either, it passes. *)
Theorem files_exist_aggregates (cwd : string) (fs : list string) (w : World) :
  forallb (fun f => settles (classify w cwd f)) fs = true ->
  run (validateStep (checks "files-exist" fs) cwd) w =
  (Ret match folders_of w cwd fs with
       | _ :: _ =>
           verdict false
             ("A folder exists where a file is required: "
              ++ Js.join ", "
                   (map (fun p => fst p ++ " (found folder: " ++ snd p ++ ")")
                        (folders_of w cwd fs)))
       | [] =>
           match filter (fun f => is_missing (classify w cwd f)) fs with
           | [] => verdict true "All files exist"
           | ms => verdict false ("Missing files: " ++ Js.join ", " ms)
           end
       end, w).
Proof.
  intros H. rewrite run_checks_files_exist. unfold validateFilesExist.
  destruct (run_filesExist_settled cwd fs w H (mkFilesExistAcc [] [] [])) as (wc & R).
  rewrite run_bind, R. cbn [missing wrongType wrongCase app].
  destruct (folders_of w cwd fs) as [|p ps]; [|reflexivity].
  rewrite run_after_silent by apply silent_log_each.
  now destruct (filter (fun f => is_missing (classify w cwd f)) fs).
Qed.

Lemma forallb_same {A} (g h : A -> bool) (l : list A) :
  (forall a, g a = h a) -> forallb g l = forallb h l.
Proof. intros E. induction l as [|a l IH]; simpl; [reflexivity | now rewrite E, IH]. Qed.

Lemma all_regular (cwd : string) (fs : list string) (w : World) :
  forallb (fun f => settles (classify w cwd f)) fs = true ->
  forallb (fun f => is_regular (classify w cwd f)) fs
  = match folders_of w cwd fs with [] => true | _ => false end
    && match filter (fun f => is_missing (classify w cwd f)) fs with
       | [] => true
       | _ => false
       end.
Proof.
  unfold folders_of. induction fs as [|f rest IH]; [reflexivity|].
  cbn [flat_map filter forallb]. intros H. apply andb_prop in H as [H1 H2].
  specialize (IH H2).
  destruct (classify w cwd f) as [|ms|e|a|a];
    cbn [is_regular is_missing app andb settles] in *; try discriminate.
  - now rewrite andb_false_r.
  - reflexivity.
  - exact IH.
Qed.

(** X8.  [files-exist] passes exactly when [file-exists] passes for every
    listed path; on an empty list it passes. *)
Theorem files_exist_is_every_file_exists (cwd : string) (fs : list string) (w : World) :
  passes (checks "files-exist" fs) cwd w
  = forallb (fun f => passes (check "file-exists" f) cwd w) fs.
Proof.
  rewrite (forallb_same _ (fun f => is_regular (classify w cwd f)))
    by (intros f; apply passes_file_exists).
  destruct (forallb (fun f => settles (classify w cwd f)) fs) eqn:S.
  - rewrite (all_regular cwd fs w S). unfold passes.
    rewrite run_checks_files_exist. unfold validateFilesExist.
    destruct (run_filesExist_settled cwd fs w S (mkFilesExistAcc [] [] [])) as (wc & R).
    rewrite run_bind, R. cbn [missing wrongType wrongCase app].
    destruct (folders_of w cwd fs) as [|q qs]; [|reflexivity].
    rewrite run_after_silent by apply silent_log_each.
    now destruct (filter (fun f => is_missing (classify w cwd f)) fs).
  - assert (F : forallb (fun f => is_regular (classify w cwd f)) fs = false).
    { clear -S. induction fs as [|f rest IH]; [discriminate|].
      simpl in *. destruct (classify w cwd f); simpl in *; auto. }
    rewrite F. unfold passes. rewrite run_checks_files_exist. unfold validateFilesExist.
    rewrite run_bind.
    destruct (run_filesExist_aborted cwd fs w S (mkFilesExistAcc [] [] []))
      as [(v & R & P) | (e & R)]; rewrite R; [rewrite run_ret; exact P | reflexivity].
Qed.

End FilesExist.

(** The example of X9: a file, a folder and a missing path. *)
Lemma files_exist_aggregates_witness :
  run (validateStep (checks "files-exist" ["a.txt"; "docs"; "gone.txt"]) "/w") Cases.mixed
  = (Ret (verdict false
            "A folder exists where a file is required: docs (found folder: docs)"),
     Cases.mixed).
Proof.
  apply (@files_exist_aggregates _ TestHost.host "/w" ["a.txt"; "docs"; "gone.txt"]
           Cases.mixed). reflexivity.
Defined.

(* ================================================================== *)
(** ** [file-staged] and [files-staged] *)
(* ================================================================== *)

Section StagedChecks.
Context {World : Type} {host : Host World}.

Variables (cwd : string) (w w' : World) (listing : option (list string)).

(** The staged entries, as read in the world the check starts in. *)
Hypothesis staged_read : run (getStagedEntries cwd) w = (Ret listing, w').

Lemma listing_truthy (staged : list string) (m : string) :
  listing = Some staged -> In m staged -> Js.truthy m = true.
Proof.
  intros -> H. exact (@staged_truthy _ _ cwd w w' staged m staged_read H).
Qed.

(** X10.  How [file-staged] decides, from the staged entries alone: an
    entry equal to the normalized path passes, even beside entries that
    differ from it by case; otherwise one entry that differs by case only
    passes under its own name, several fail as ambiguous, and none fails
    with the hint to [git add] the path.  A listing that cannot be read
    fails as such. *)
Theorem file_staged_decision (f : string) :
  run (validateStep (check "file-staged" f) cwd) w =
  (Ret match listing with
       | None => verdict false "Failed to check git status"
       | Some staged =>
           match staged_state_of staged f with
           | StagedExact => verdict true ("File " ++ f ++ " is staged")
           | StagedAs m => verdict true ("File " ++ f ++ " is staged (as " ++ m ++ ")")
           | StagedAmbiguous =>
               verdict false ("Multiple staged files match '" ++ f
                              ++ "' ignoring case. Keep only one.")
           | Unstaged =>
               verdict false ("File " ++ f ++ " is not staged. Try: git add " ++ f)
           end
       end, w').
Proof.
  rewrite run_validateStep.
  change (dispatch (check "file-staged" f) cwd) with (validateFileStaged cwd (Some f)).
  unfold validateFileStaged. quiet. rewrite run_bind, staged_read.
  pose proof listing_truthy as LT.
  destruct listing as [staged|]; [|reflexivity].
  unfold js_normalizeGitEntry. rewrite run_bind, run_ret. unfold staged_state_of.
  destruct (Js.mem (normalizeGitEntry f) staged); [reflexivity|].
  rewrite unique_match_spec.
  destruct (case_hits (normalizeGitEntry f) staged) as [|m [|m' ms]] eqn:E;
    cbn [ambiguous cmatch present]; try reflexivity.
  rewrite (LT staged m eq_refl (@case_hits_one_In _ m staged E)).
  quiet. reflexivity.
Qed.

Lemma passes_file_staged (staged : list string) (f : string) :
  listing = Some staged ->
  passes (check "file-staged" f) cwd w = is_staged (staged_state_of staged f).
Proof.
  intros L. unfold passes. rewrite run_validateStep.
  change (dispatch (check "file-staged" f) cwd) with (validateFileStaged cwd (Some f)).
  unfold validateFileStaged. quiet. rewrite run_bind, staged_read, L.
  unfold js_normalizeGitEntry. rewrite run_bind, run_ret. unfold staged_state_of.
  destruct (Js.mem (normalizeGitEntry f) staged); [reflexivity|].
  rewrite unique_match_spec.
  destruct (case_hits (normalizeGitEntry f) staged) as [|m [|m' ms]] eqn:E;
    cbn [ambiguous cmatch present]; try reflexivity.
  rewrite (listing_truthy m L (@case_hits_one_In _ m staged E)).
  quiet. reflexivity.
Qed.

Lemma run_filesStaged_step (staged : list string) (f : string) (rest unstaged : list string)
      (w1 : World) :
  listing = Some staged ->
  run (filesStaged_loop staged (f :: rest) unstaged) w1 =
  match staged_state_of staged f with
  | StagedExact | StagedAs _ => run (filesStaged_loop staged rest unstaged) w1
  | StagedAmbiguous =>
      (Ret (inl (verdict false ("Multiple staged files match '" ++ f
                                ++ "' ignoring case. Keep only one."))), w1)
  | Unstaged => run (filesStaged_loop staged rest (unstaged ++ [f])%list) w1
  end.
Proof.
  intros L. cbn [filesStaged_loop]. unfold staged_state_of.
  destruct (Js.mem (normalizeGitEntry f) staged); [reflexivity|].
  rewrite unique_match_spec.
  destruct (case_hits (normalizeGitEntry f) staged) as [|m [|m' ms]] eqn:E;
    cbn [ambiguous cmatch present]; try reflexivity.
  rewrite (listing_truthy m L (@case_hits_one_In _ m staged E)).
  quiet. reflexivity.
Qed.

Lemma run_filesStaged_loop (staged fs : list string) (w1 : World) :
  listing = Some staged ->
  forall unstaged,
    run (filesStaged_loop staged fs unstaged) w1 =
    if existsb (fun f => match staged_state_of staged f with
                         | StagedAmbiguous => true
                         | _ => false
                         end) fs
    then (fst (run (filesStaged_loop staged fs unstaged) w1), w1)
    else (Ret (inr (unstaged
                      ++ filter (fun f => is_unstaged (staged_state_of staged f)) fs)%list),
          w1).
Proof.
  intros L. induction fs as [|f rest IH]; intros unstaged.
  - simpl. now rewrite app_nil_r.
  - rewrite (run_filesStaged_step f rest unstaged w1 L). cbn [existsb filter].
    destruct (staged_state_of staged f); cbn [is_unstaged orb]; try apply IH.
    + reflexivity.
    + rewrite IH. destruct (existsb _ rest); [reflexivity|]. now rewrite <- app_assoc.
Qed.

Lemma filesStaged_ambiguous (staged fs : list string) (w1 : World) :
  listing = Some staged ->
  existsb (fun f => match staged_state_of staged f with
                    | StagedAmbiguous => true
                    | _ => false
                    end) fs = true ->
  forall unstaged, exists v,
    run (filesStaged_loop staged fs unstaged) w1 = (Ret (inl v), w1)
    /\ passed v = false.
Proof.
  intros L. induction fs as [|f rest IH]; intros H unstaged; [discriminate|].
  rewrite (run_filesStaged_step f rest unstaged w1 L). cbn [existsb] in H.
  destruct (staged_state_of staged f); cbn [orb] in H; eauto.
Qed.

Lemma run_checks_files_staged (fs : list string) :
  run (validateStep (checks "files-staged" fs) cwd) w =
  match run (validateFilesStaged cwd (Some fs)) w with
  | (Ret r, w1) => (Ret r, w1)
  | (Throw e, w1) => (Ret (verdict false (message_or "Validation error" e)), w1)
  end.
Proof. now rewrite run_validateStep. Qed.

(** X11.  With the staged entries read and no listed path ambiguous,
    [files-staged] reports the paths that are not staged, all of them and
    in the order given, and passes when there is none. *)
Theorem files_staged_aggregates (staged fs : list string) :
  listing = Some staged ->
  existsb (fun f => match staged_state_of staged f with
                    | StagedAmbiguous => true
                    | _ => false
                    end) fs = false ->
  run (validateStep (checks "files-staged" fs) cwd) w =
  (Ret match filter (fun f => is_unstaged (staged_state_of staged f)) fs with
       | [] => verdict true "All files are staged"
       | us => verdict false ("Files not staged: " ++ Js.join ", " us)
       end, w').
Proof.
  intros L A. rewrite run_checks_files_staged. unfold validateFilesStaged.
  rewrite run_bind, staged_read, L, run_bind, (run_filesStaged_loop fs w' L []), A.
  cbn [app]. now destruct (filter _ fs).
Qed.

Lemma all_staged (staged fs : list string) :
  existsb (fun f => match staged_state_of staged f with
                    | StagedAmbiguous => true
                    | _ => false
                    end) fs = false ->
  forallb (fun f => is_staged (staged_state_of staged f)) fs
  = match filter (fun f => is_unstaged (staged_state_of staged f)) fs with
    | [] => true
    | _ => false
    end.
Proof.
  induction fs as [|f rest IH]; [reflexivity|].
  cbn [existsb filter forallb].
  destruct (staged_state_of staged f); cbn [is_unstaged is_staged orb andb];
    try discriminate; try exact IH. reflexivity.
Qed.

(** X12.  With the staged entries read, [files-staged] passes exactly when
    [file-staged] passes for every listed path. *)
Theorem files_staged_is_every_file_staged (staged fs : list string) :
  listing = Some staged ->
  passes (checks "files-staged" fs) cwd w
  = forallb (fun f => passes (check "file-staged" f) cwd w) fs.
Proof.
  intros L.
  rewrite (forallb_same _ (fun f => is_staged (staged_state_of staged f)))
    by (intros f; now apply passes_file_staged).
  destruct (existsb (fun f => match staged_state_of staged f with
                              | StagedAmbiguous => true
                              | _ => false
                              end) fs) eqn:A.
  - assert (F : forallb (fun f => is_staged (staged_state_of staged f)) fs = false).
    { clear -A. induction fs as [|f rest IH]; [discriminate|].
      simpl in *. destruct (staged_state_of staged f); simpl in *; auto. }
    rewrite F. unfold passes. rewrite run_checks_files_staged. unfold validateFilesStaged.
    rewrite run_bind, staged_read, L, run_bind.
    destruct (filesStaged_ambiguous fs w' L A []) as (v & R & P).
    rewrite R, run_ret. exact P.
  - rewrite (all_staged staged fs A). unfold passes.
    rewrite run_checks_files_staged. unfold validateFilesStaged.
    rewrite run_bind, staged_read, L, run_bind, (run_filesStaged_loop fs w' L []), A.
    cbn [app]. now destruct (filter _ fs).
Qed.

End StagedChecks.

(** The example of X10: [b.txt] is staged, and so is [B.txt]. *)
Lemma file_staged_decision_witness :
  run (validateStep (check "file-staged" "b.txt") "/w") Cases.mixed
  = (Ret (verdict true "File b.txt is staged"), Cases.mixed).
Proof.
  apply (@file_staged_decision _ TestHost.host "/w" Cases.mixed Cases.mixed
           (Some ["a.txt"; "b.txt"; "B.txt"]) eq_refl "b.txt").
Defined.

(** The example of X11: one path staged, one not, one staged in another
    casing. *)
Lemma files_staged_aggregates_witness :
  run (validateStep (checks "files-staged" ["a.txt"; "c.txt"; "A.TXT"]) "/w") Cases.mixed
  = (Ret (verdict false "Files not staged: c.txt"), Cases.mixed).
Proof.
  apply (@files_staged_aggregates _ TestHost.host "/w" Cases.mixed Cases.mixed
           (Some ["a.txt"; "b.txt"; "B.txt"]) eq_refl
           ["a.txt"; "b.txt"; "B.txt"] ["a.txt"; "c.txt"; "A.TXT"] eq_refl eq_refl).
Defined.

(** The example of X12: the second path is ambiguous, for both checks. *)
Lemma files_staged_is_every_file_staged_witness :
  passes (checks "files-staged" ["a.txt"; "b.TXT"]) "/w" Cases.mixed
  = forallb (fun f => passes (check "file-staged" f) "/w" Cases.mixed) ["a.txt"; "b.TXT"].
Proof.
  apply (@files_staged_is_every_file_staged _ TestHost.host "/w" Cases.mixed Cases.mixed
           (Some ["a.txt"; "b.txt"; "B.txt"]) eq_refl
           ["a.txt"; "b.txt"; "B.txt"] ["a.txt"; "b.TXT"] eq_refl).
Defined.

(* ================================================================== *)
(** ** Errors inside the evaluators *)
(* ================================================================== *)

Section Errors.
Context {World : Type} {host : Host World}.

(** X13.  When the directory lists the entry and [fs.stat] fails on it,
    [validateFileExists] throws that error, and the dispatcher turns it
    into a failed verdict that carries the message of the error. *)
Theorem file_exists_stat_failure (cwd f m : string) (e : thrown) (w : World) :
  dir_hits w (directory_of cwd f) (expected_base f) = [m] ->
  m <> "" ->
  fs_stat w (Path.join (directory_of cwd f) m) = inl e ->
  run (validateFileExists cwd (Some f)) w = (Throw e, w)
  /\ run (validateStep (check "file-exists" f) cwd) w
     = (Ret (verdict false (message_or "Validation error" e)), w).
Proof.
  intros Hh Hm Hs.
  assert (R : run (validateFileExists cwd (Some f)) w = (Throw e, w)).
  { unfold validateFileExists, js_normalizeRel.
    rewrite run_bind, run_ret, run_bind, run_resolve_or_return.
    fold (directory_of cwd f) (expected_base f). rewrite Hh. unfold present.
    replace (Js.truthy m) with true
      by (symmetry; unfold Js.truthy; apply negb_true_iff; now apply String.eqb_neq).
    now rewrite run_bind, run_read, Hs. }
  split; [exact R | now rewrite run_check_file_exists, R].
Qed.

Lemma never_ret {A} (a : A) : never_throws (@ret World A a).
Proof. intro w. now exists a, w. Qed.

Lemma never_console_log (line : string) : never_throws (@console_log World line).
Proof. intro w. now exists tt, w. Qed.

Lemma never_bind {A B} (m : M World A) (k : A -> M World B) :
  never_throws m -> (forall a, never_throws (k a)) -> never_throws (bind m k).
Proof.
  intros Hm Hk w. rewrite run_bind. destruct (Hm w) as (a & w1 & ->). apply Hk.
Qed.

Lemma never_try_catch {A} (m : M World A) (h : thrown -> M World A) :
  (forall e, never_throws (h e)) -> never_throws (try_catch m h).
Proof.
  intros Hh w. rewrite run_try_catch.
  destruct (run m w) as [[a|e] w1]; [now exists a, w1 | apply Hh].
Qed.

Lemma never_when (b : bool) (m : M World unit) :
  never_throws m -> never_throws (when b m).
Proof. intros Hm. destruct b; [exact Hm | apply never_ret]. Qed.

Lemma never_executeCommand (command cwd : string) :
  never_throws (executeCommand command cwd).
Proof. intro w. rewrite run_executeCommand. eauto. Qed.

Ltac never_step :=
  first
    [ apply never_ret | apply never_console_log | apply never_executeCommand
    | apply never_try_catch | apply never_when | apply never_bind
    | match goal with
      | |- forall _, _ => intro
      | |- never_throws (match ?x with _ => _ end) => destruct x
      | |- never_throws (if ?b then _ else _) => destruct b
      end ].

Lemma never_filesStaged_loop (stagedFiles todo unstaged : list string) :
  never_throws (@filesStaged_loop World stagedFiles todo unstaged).
Proof.
  revert unstaged. induction todo as [|f rest IH]; intros unstaged; simpl;
    [apply never_ret|].
  destruct (Js.mem _ _); [apply IH|].
  destruct (ambiguous _); [apply never_ret|].
  destruct (present _); [|apply IH].
  apply never_bind; [repeat never_step | intros _; apply IH].
Qed.

(** X14.  The evaluators that ask only git, or that catch what they do,
    never throw: [validateGitInitialized], [validateFileContains] (also
    without its fields), [validateCommitExists], [validateBranchExists],
    [validateBranchActive], and [validateFileStaged] and
    [validateFilesStaged] when their paths are given.  So do the helpers
    [getCaseMatches], [getStagedEntries] and [getTrackedEntries]. *)
Theorem self_contained_evaluators (cwd : string) :
  never_throws (validateGitInitialized cwd)
  /\ (forall file content, never_throws (validateFileContains cwd file content))
  /\ (forall message, never_throws (validateCommitExists cwd message))
  /\ (forall branch, never_throws (validateBranchExists cwd branch))
  /\ (forall branch, never_throws (validateBranchActive cwd branch))
  /\ (forall f, never_throws (validateFileStaged cwd (Some f)))
  /\ (forall fs, never_throws (validateFilesStaged cwd (Some fs)))
  /\ (forall dir name, never_throws (getCaseMatches dir name))
  /\ never_throws (getStagedEntries cwd)
  /\ never_throws (getTrackedEntries cwd).
Proof.
  repeat apply conj.
  - unfold validateGitInitialized. repeat never_step.
  - intros file content. unfold validateFileContains. repeat never_step.
  - intros message. unfold validateCommitExists. repeat never_step.
  - intros branch. unfold validateBranchExists. repeat never_step.
  - intros branch. unfold validateBranchActive. repeat never_step.
  - intros f. unfold validateFileStaged, getStagedEntries, js_normalizeGitEntry.
    repeat never_step.
  - intros fs. unfold validateFilesStaged, getStagedEntries.
    apply never_bind; [repeat never_step|]. intros [staged|]; [|apply never_ret].
    apply never_bind; [apply never_filesStaged_loop | repeat never_step].
  - intros dir name. unfold getCaseMatches. repeat never_step.
  - unfold getStagedEntries. repeat never_step.
  - unfold getTrackedEntries. repeat never_step.
Qed.

End Errors.

(** The example of X13: [readme.md] is listed in [/w] and cannot be stat-ed. *)
Lemma file_exists_stat_failure_witness :
  @run _ _ (@validateStep _ Dangling.host (check "file-exists" "readme.md") "/w")
       Examples.lower_readme
  = (Ret (verdict false "ENOENT: no such file or directory, stat '/w/readme.md'"),
     Examples.lower_readme).
Proof.
  assert (N : "readme.md" <> "") by discriminate.
  exact (proj2 (@file_exists_stat_failure _ Dangling.host "/w" "readme.md" "readme.md"
                  (TestHost.ENOENT "stat" "/w/readme.md") Examples.lower_readme
                  eq_refl N eq_refl)).
Defined.

(* ================================================================== *)
(** ** Without git, and without the file *)
(* ================================================================== *)

Section GitFailure.
Context {World : Type} {host : Host World}.



(** X17.  When the expected path is not found as a regular file,
    [file-committed] fails on what the file system shows, in the world it
    started in: git is not asked.  For a missing file the verdict tells to
    create it. *)
Theorem file_committed_needs_file (cwd f : string) (w : World) :
  is_regular (classify w cwd f) = false ->
  exists msg,
    run (validateStep (check "file-committed" f) cwd) w = (Ret (verdict false msg), w)
    /\ (classify w cwd f = Missing ->
        Js.includes msg "Progress: create the file" = true).
Proof.
  intros H. rewrite run_validateStep.
  change (dispatch (check "file-committed" f) cwd)
    with (validateFileCommitted cwd (Some f)).
  unfold validateFileCommitted, js_normalizeRel.
  rewrite run_bind, run_ret, run_bind, run_resolve_or_return.
  fold (directory_of cwd f) (expected_base f). unfold classify in *.
  assert (I : forall rest,
             Js.includes ("Progress: create the file '" ++ rest)
                         "Progress: create the file" = true).
  { intros rest. change ("Progress: create the file '" ++ rest)
      with ("Progress: create the file" ++ (" '" ++ rest)). apply includes_self. }
  destruct (dir_hits w (directory_of cwd f) (expected_base f)) as [|m [|m' ms]].
  - cbn [present]. rewrite run_ret. eexists. split; [reflexivity|]. intros _. apply I.
  - unfold present. destruct (Js.truthy m).
    + rewrite run_bind, run_read.
      destruct (fs_stat w (Path.join (directory_of cwd f) m)) as [e|st].
      * eexists. split; [reflexivity | discriminate].
      * destruct (isFile st); [discriminate|]. simpl negb. cbv iota. rewrite run_ret.
        eexists. split; [reflexivity | discriminate].
    + rewrite run_ret. eexists. split; [reflexivity|]. intros _. apply I.
  - rewrite run_ret. eexists. split; [reflexivity | discriminate].
Qed.

(** No command exits with status 0. *)
Hypothesis git_fails :
  forall command cwd w, exited_zero (fst (execa command cwd w)) = false.




End GitFailure.

Section Repeatable.
Context {World : Type} {host : Host World}.

(** X16.  When the command lines an evaluation hands to the shell (the
    five fixed git queries, and for [file-committed] the git log of the
    path resolved on disk or of a tracked entry that equals it ignoring
    case) change nothing in the world at hand, the evaluation leaves that
    world as it found it, and evaluating the same check again gives the
    same verdict. *)
Theorem validateStep_repeatable (v : Validation) (cwd : string) (w : World) :
  (forall q, In q fixed_queries -> snd (execa q cwd w) = w) ->
  (forall t, In t (log_targets v cwd w) -> snd (execa (git_log_of t) cwd w) = w) ->
  snd (run (validateStep v cwd) w) = w
  /\ run (validateStep v cwd ;;; validateStep v cwd) w = run (validateStep v cwd) w.
Proof.
  intros Q L. pose proof (@validateStep_keeps_world _ _ cwd w Q v L) as K.
  unfold keeps_at in K.
  split; [exact K|]. rewrite run_bind.
  destruct (validateStep_returns v cwd w) as (r & w1 & R).
  rewrite R in K |- *. simpl in K. subst w1. exact R.
Qed.

End Repeatable.

(** The example of X17: no [README.md] in a fresh directory. *)
Lemma file_committed_needs_file_witness :
  exists msg,
    run (validateStep (check "file-committed" "README.md") "/w") Examples.fresh
    = (Ret (verdict false msg), Examples.fresh).
Proof.
  destruct (@file_committed_needs_file _ TestHost.host "/w" "README.md" Examples.fresh
              eq_refl) as (msg & R & _).
  exists msg. exact R.
Defined.


(** The example of X16: [file-committed] on a committed [README.md], which
    asks the shell for the tracked entries and for the git log. *)
Lemma validateStep_repeatable_witness :
  log_targets (check "file-committed" "README.md") "/w" Examples.committed_readme
  = ["README.md"; "README.md"]
  /\ run (validateStep (check "file-committed" "README.md") "/w" ;;;
          validateStep (check "file-committed" "README.md") "/w")
         Examples.committed_readme
     = (Ret (verdict_at true "File README.md has been committed" "README.md"),
        Examples.committed_readme).
Proof.
  split; [reflexivity|].
  refine (eq_trans
            (proj2 (@validateStep_repeatable _ TestHost.host
                      (check "file-committed" "README.md") "/w"
                      Examples.committed_readme _ _)) _).
  - intros q H. simpl in H.
    repeat (destruct H as [<-|H]; [reflexivity|]). contradiction.
  - intros t H.
    change (In t ["README.md"; "README.md"]) in H. simpl in H.
    repeat (destruct H as [<-|H]; [reflexivity|]). contradiction.
  - reflexivity.
Defined.

(* ================================================================== *)
(** ** The progress store *)
(* ================================================================== *)

Section ProgressFacts.
Context {World : Type} {host : Host World} {store : Store World}.

Lemma run_effect {A} (f : World -> (thrown + A) * World) (w : World) :
  run (effect f) w
  = (match fst (f w) with inl e => Throw e | inr a => Ret a end, snd (f w)).
Proof. unfold run, effect. now destruct (f w) as [[e|a] w1]. Qed.

Lemma run_loadProgress (w : World) : run loadProgress w = (Ret (loaded w), w).
Proof.
  unfold loadProgress, loaded. rewrite run_try_catch, run_bind, run_read.
  destruct (fs_readFile w getProgressPath) as [e|content]; [reflexivity|].
  now destruct (JSON_parse content).
Qed.

Lemma own_set_same (k : string) (v : LessonProgress) (p : Progress) :
  own_property k (set_property k v p) = Some v.
Proof.
  induction p as [|[k' v'] rest IH]; simpl.
  - now rewrite String.eqb_refl.
  - destruct (String.eqb k k') eqn:E; simpl; rewrite ?String.eqb_refl, ?E; auto.
Qed.

Lemma own_set_other (k k' : string) (v : LessonProgress) (p : Progress) :
  k' <> k -> own_property k' (set_property k v p) = own_property k' p.
Proof.
  intros N. induction p as [|[k0 v0] rest IH]; simpl.
  - apply String.eqb_neq in N. now rewrite N.
  - destruct (String.eqb k k0) eqn:E; simpl.
    + apply String.eqb_eq in E. subst k0. apply String.eqb_neq in N. now rewrite N.
    + now rewrite IH.
Qed.

Lemma set_set (k : string) (v v' : LessonProgress) (p : Progress) :
  set_property k v (set_property k v' p) = set_property k v p.
Proof.
  induction p as [|[k0 v0] rest IH]; simpl.
  - now rewrite String.eqb_refl.
  - destruct (String.eqb k k0) eqn:E; simpl; rewrite ?String.eqb_refl, ?E, ?IH; auto.
Qed.

Lemma steps_of_marked (p : Progress) (l s t : string) :
  steps_of (marked p l s t) l
  = if Js.mem s (steps_of p l) then steps_of p l else (steps_of p l ++ [s])%list.
Proof. unfold marked. unfold steps_of at 1. now rewrite own_set_same. Qed.

(** X18.  On a first run, or with a progress file that does not parse,
    [loadProgress] returns the empty progress instead of throwing.
    [isStepComplete] then answers false for every step of every lesson,
    the lesson ids apart that name a property inherited from
    [Object.prototype]: for those it throws a [TypeError]. *)
Theorem fresh_progress (w : World) (lessonId stepId : string) :
  (exists e, fs_readFile w getProgressPath = inl e)
  \/ (exists content e, fs_readFile w getProgressPath = inr content
                        /\ JSON_parse content = inl e) ->
  run loadProgress w = (Ret [], w)
  /\ run (isStepComplete lessonId stepId) w
     = (if Js.mem lessonId Object_prototype
        then Throw TypeError_includes else Ret false, w).
Proof.
  intros H.
  assert (L : loaded w = []).
  { unfold loaded. destruct H as [(e & ->) | (content & e & -> & ->)]; reflexivity. }
  unfold isStepComplete. rewrite run_bind, run_loadProgress, L.
  split; [reflexivity|]. unfold get_property. simpl own_property.
  now destruct (Js.mem lessonId Object_prototype).
Qed.

Lemma run_markStepComplete (w : World) (lessonId stepId : string) :
  Js.mem lessonId Object_prototype = false ->
  run (markStepComplete lessonId stepId) w
  = run (saveProgress (marked (loaded w) lessonId stepId (Date_toISOString w))) w.
Proof.
  intros O. unfold markStepComplete. rewrite run_bind, run_loadProgress. cbv beta iota.
  unfold marked, steps_of, get_property at 1.
  destruct (own_property lessonId (loaded w)) as [entry|] eqn:E.
  - rewrite run_bind, run_ret. unfold get_property. rewrite E.
    rewrite run_bind, run_read. reflexivity.
  - rewrite O, run_bind, run_bind, run_read, run_ret.
    unfold get_property. rewrite own_set_same.
    rewrite run_bind, run_read. cbn [completedSteps Js.mem existsb app].
    now rewrite set_set.
Qed.

Lemma marked_has_step (p : Progress) (l s t : string) :
  In s (steps_of (marked p l s t) l).
Proof.
  rewrite steps_of_marked. destruct (Js.mem s (steps_of p l)) eqn:M.
  - now apply mem_In.
  - apply in_or_app. right. now left.
Qed.

(** X19.  For a lesson id that is no property name of [Object.prototype],
    [markStepComplete] saves the loaded progress with the step recorded for
    the lesson and the time set.  The step is recorded once: it is appended
    unless it is already there, so steps recorded before are kept in their
    order, a list without duplicates stays so, and marking again changes no
    list of steps.  The other lessons are left as they are. *)
Theorem markStepComplete_records (w : World) (lessonId stepId : string) :
  Js.mem lessonId Object_prototype = false ->
  run (markStepComplete lessonId stepId) w
  = run (saveProgress (marked (loaded w) lessonId stepId (Date_toISOString w))) w
  /\ (forall p t,
        steps_of (marked p lessonId stepId t) lessonId
        = (if Js.mem stepId (steps_of p lessonId) then steps_of p lessonId
           else (steps_of p lessonId ++ [stepId])%list)
        /\ In stepId (steps_of (marked p lessonId stepId t) lessonId)
        /\ (NoDup (steps_of p lessonId) ->
            NoDup (steps_of (marked p lessonId stepId t) lessonId))
        /\ (forall t', steps_of (marked (marked p lessonId stepId t) lessonId stepId t')
                                lessonId
                       = steps_of (marked p lessonId stepId t) lessonId)
        /\ (forall l', l' <> lessonId ->
            own_property l' (marked p lessonId stepId t) = own_property l' p)).
Proof.
  intros O. split.
  - now apply run_markStepComplete.
  - intros p t. split; [apply steps_of_marked|]. split; [apply marked_has_step|].
    rewrite steps_of_marked. repeat split.
    + intros N. destruct (Js.mem stepId (steps_of p lessonId)) eqn:M; [exact N|].
      apply NoDup_app; [exact N | repeat constructor; easy |].
      intros a Ha [<-|[]]. apply mem_In in Ha. congruence.
    + intros t'. rewrite !steps_of_marked.
      destruct (Js.mem stepId (steps_of p lessonId)) eqn:M; rewrite ?M; [reflexivity|].
      replace (Js.mem stepId (steps_of p lessonId ++ [stepId])) with true; [reflexivity|].
      symmetry. apply mem_In, in_or_app. right. now left.
    + intros l' N. unfold marked. now apply own_set_other.
Qed.

Lemma run_saveProgress (p : Progress) (w : World) :
  run (saveProgress p) w =
  (Ret tt,
   match fst (fs_mkdir w (Path.dirname getProgressPath)) with
   | inl _ => snd (fs_mkdir w (Path.dirname getProgressPath))
   | inr _ =>
       snd (fs_writeFile (snd (fs_mkdir w (Path.dirname getProgressPath)))
              getProgressPath (JSON_stringify p))
   end).
Proof.
  unfold saveProgress. rewrite run_try_catch, run_bind, run_effect.
  destruct (fst (fs_mkdir w (Path.dirname getProgressPath))) as [e|[]]; [reflexivity|].
  rewrite run_effect.
  now destruct (fst (fs_writeFile _ getProgressPath (JSON_stringify p))) as [e|[]].
Qed.

(** X20.  After [markStepComplete] the step counts as complete: when the
    directory can be made and the file written, and the file written reads
    and parses back, [isStepComplete] returns true for the lesson and step
    just marked. *)
Theorem mark_then_complete (w w1 w2 : World) (lessonId stepId : string) :
  Js.mem lessonId Object_prototype = false ->
  fs_mkdir w (Path.dirname getProgressPath) = (inr tt, w1) ->
  fs_writeFile w1 getProgressPath
    (JSON_stringify (marked (loaded w) lessonId stepId (Date_toISOString w)))
  = (inr tt, w2) ->
  fs_readFile w2 getProgressPath
  = inr (JSON_stringify (marked (loaded w) lessonId stepId (Date_toISOString w))) ->
  JSON_parse (JSON_stringify (marked (loaded w) lessonId stepId (Date_toISOString w)))
  = inr (marked (loaded w) lessonId stepId (Date_toISOString w)) ->
  run (markStepComplete lessonId stepId ;;; isStepComplete lessonId stepId) w
  = (Ret true, w2).
Proof.
  intros O Hm Hw Hr Hp.
  rewrite run_bind, (run_markStepComplete w lessonId stepId O), run_saveProgress, Hm.
  cbn [fst snd]. rewrite Hw. cbn [snd].
  unfold isStepComplete. rewrite run_bind, run_loadProgress.
  assert (L : loaded w2 = marked (loaded w) lessonId stepId (Date_toISOString w)).
  { unfold loaded at 1. now rewrite Hr, Hp. }
  rewrite L.
  pose proof (marked_has_step (loaded w) lessonId stepId (Date_toISOString w)) as I.
  unfold get_property. unfold steps_of in I.
  destruct (own_property lessonId
              (marked (loaded w) lessonId stepId (Date_toISOString w))) as [entry|].
  - rewrite run_ret. apply mem_In in I. now rewrite I.
  - contradiction.
Qed.

(** X21.  A lesson whose id is a property name of [Object.prototype], such
    as [constructor], cannot be tracked: unless the progress has an own
    entry of that name, [markStepComplete] and [isStepComplete] throw a
    [TypeError], and nothing is written. *)
Theorem inherited_lesson_id_throws (w : World) (lessonId stepId : string) :
  Js.mem lessonId Object_prototype = true ->
  own_property lessonId (loaded w) = None ->
  run (markStepComplete lessonId stepId) w = (Throw TypeError_includes, w)
  /\ run (isStepComplete lessonId stepId) w = (Throw TypeError_includes, w).
Proof.
  intros O E. unfold markStepComplete, isStepComplete.
  rewrite !run_bind, run_loadProgress. cbv beta iota.
  unfold get_property. rewrite E, O.
  rewrite run_bind, run_ret. cbv beta iota. now rewrite E.
Qed.

(** X22.  [loadProgress] and [saveProgress] never throw.  When the
    directory cannot be made, [saveProgress] does not attempt the write. *)
Theorem progress_io_never_throws (p : Progress) (w : World) :
  never_throws loadProgress
  /\ never_throws (saveProgress p)
  /\ ((exists e, fst (fs_mkdir w (Path.dirname getProgressPath)) = inl e) ->
      snd (run (saveProgress p) w) = snd (fs_mkdir w (Path.dirname getProgressPath))).
Proof.
  repeat split.
  - intros w0. rewrite run_loadProgress. eauto.
  - intros w0. rewrite run_saveProgress. eauto.
  - intros (e & E). now rewrite run_saveProgress, E.
Qed.

End ProgressFacts.

(** The example of X18: the first run. *)
Lemma fresh_progress_witness :
  @run _ _ (@isStepComplete _ Notebook.host Notebook.store "git-basics" "init")
       Notebook.first_run
  = (Ret false, Notebook.first_run)
  /\ @run _ _ (@isStepComplete _ Notebook.host Notebook.store "toString" "init")
          Notebook.first_run
     = (Throw TypeError_includes, Notebook.first_run).
Proof.
  assert (F : exists e, @fs_readFile _ Notebook.host Notebook.first_run
                          (@getProgressPath _ Notebook.store) = inl e)
    by (eexists; reflexivity).
  split.
  - exact (proj2 (@fresh_progress _ Notebook.host Notebook.store Notebook.first_run
                    "git-basics" "init" (or_introl F))).
  - exact (proj2 (@fresh_progress _ Notebook.host Notebook.store Notebook.first_run
                    "toString" "init" (or_introl F))).
Defined.

(** The example of X19: a second step of [git-basics]. *)
Lemma markStepComplete_records_witness :
  steps_of (marked (@loaded _ Notebook.host Notebook.store Notebook.one_step)
              "git-basics" "commit" "now") "git-basics"
  = ["init"; "commit"].
Proof.
  destruct (@markStepComplete_records _ Notebook.host Notebook.store Notebook.one_step
              "git-basics" "commit" eq_refl) as (_ & F).
  destruct (F (@loaded _ Notebook.host Notebook.store Notebook.one_step) "now")
    as (E & _).
  rewrite E. reflexivity.
Defined.

(** The example of X20: marking [commit] after [init]. *)
Lemma mark_then_complete_witness :
  @run _ _ (@markStepComplete _ Notebook.host Notebook.store "git-basics" "commit" ;;;
            @isStepComplete _ Notebook.host Notebook.store "git-basics" "commit")
       Notebook.one_step
  = (Ret true,
     Notebook.mkWorld (Some "git-basics|2024-01-01T00:00:00.000Z|init,commit") true).
Proof.
  apply (@mark_then_complete _ Notebook.host Notebook.store Notebook.one_step
           Notebook.one_step); reflexivity.
Defined.

(** The example of X21: a lesson named [constructor]. *)
Lemma inherited_lesson_id_throws_witness :
  @run _ _ (@markStepComplete _ Notebook.host Notebook.store "constructor" "init")
       Notebook.first_run
  = (Throw TypeError_includes, Notebook.first_run).
Proof.
  exact (proj1 (@inherited_lesson_id_throws _ Notebook.host Notebook.store
                  Notebook.first_run "constructor" "init" eq_refl eq_refl)).
Defined.
